(* ===================================================================== *)
(* clang-tidy-cache: the file-system cache (caches/fileSystem.go)         *)
(*                                                                       *)
(* A shallow embedding of the two storage tiers of the cache (the        *)
(* sharded tree of entry files and the consolidated entries.json) over   *)
(* an explicit model of the file system, and the properties of           *)
(* FindEntry, SaveEntry, defineEntryPath, readJson and Prune.            *)
(* ===================================================================== *)

From Stdlib Require Import ZArith Lia List.
From Stdlib.Strings Require Import Ascii String Byte.
From stdpp Require Import gmap strings list fin_maps sorting pretty finite.

Set Default Proof Using "Type".

Local Open Scope string_scope.
Local Open Scope list_scope.
Local Open Scope Z_scope.

(* --------------------------------------------------------------------- *)
(* Go values                                                             *)
(* --------------------------------------------------------------------- *)

(* A Go []byte whose nil-ness is observed is an [option (list byte)]:
   [None] is the nil slice, [Some []] an empty slice that is not nil. *)
Abbreviation bytes := (list byte).

Definition byteZ (b : byte) : Z := Z.of_N (Byte.to_N b).

(* Go's [string(b)] and [[]byte(s)] keep the bytes as they are. *)
Definition go_string (b : bytes) : string := string_of_list_byte b.
Definition go_bytes (s : string) : bytes := list_byte_of_string s.

(* encoding/hex: const hextable = "0123456789abcdef" *)
Definition hextable : string := "0123456789abcdef".

Definition hexchar (n : Z) : ascii :=
  match String.get (Z.to_nat n) hextable with
  | Some c => c
  | None => "0"%char
  end.

(* hex.EncodeToString: dst[j] = hextable[v>>4]; dst[j+1] = hextable[v&0x0f] *)
Fixpoint hex_EncodeToString (src : bytes) : string :=
  match src with
  | [] => ""
  | v :: rest =>
      String (hexchar (Z.shiftr (byteZ v) 4))
        (String (hexchar (Z.land (byteZ v) 15)) (hex_EncodeToString rest))
  end.

(* The value of a hex digit written by hex.EncodeToString, and the byte
   written as two of them. *)
Definition fromHexChar (c : ascii) : option Z :=
  let n := Z.of_nat (nat_of_ascii c) in
  if decide (48 ≤ n ≤ 57) then Some (n - 48)
  else if decide (97 ≤ n ≤ 102) then Some (n - 97 + 10)
  else None.

Definition unhex (hi lo : ascii) : option byte :=
  h ← fromHexChar hi; l ← fromHexChar lo; Byte.of_N (Z.to_N (16 * h + l)).

(* The slice expressions s[lo:hi] and s[lo:] of a Go string.  Out of range
   they panic, which is [None] here. *)
Definition slice (s : string) (lo hi : nat) : option string :=
  if decide (lo ≤ hi ∧ hi ≤ String.length s)%nat
  then Some (substring lo (hi - lo) s) else None.

Definition slice_from (s : string) (lo : nat) : option string :=
  slice s lo (String.length s).

(* --------------------------------------------------------------------- *)
(* Paths                                                                 *)
(* --------------------------------------------------------------------- *)

(* A path is the list of the components of its cleaned form ("/a/b/c" is
   ["a"; "b"; "c"]).  path.Join and filepath.Join are only ever given a
   directory and single names; they ignore empty elements. *)
Abbreviation Path := (list string).

Definition path_Join (dir : Path) (names : list string) : Path :=
  dir ++ filter (λ n, n ≠ "") names.

(* filepath.Dir and filepath.Base; the base of the root directory is "/". *)
Definition filepath_Dir (p : Path) : Path := removelast p.
Definition filepath_Base (p : Path) : string := List.last p "/".

Definition ENTRIES_FILE : string := "entries.json".

(* func defineEntryPath(root string, digest []byte) (string, string) *)
Definition defineEntryPath (root : Path) (digest : bytes) : option (Path * Path) :=
  let encodedDigest := hex_EncodeToString digest in
  d01 ← slice encodedDigest 0 2;
  d23 ← slice encodedDigest 2 4;
  let entryRoot := path_Join root [d01; d23] in
  rest ← slice_from encodedDigest 4;
  let entryPath := path_Join entryRoot [rest] in
  Some (entryRoot, entryPath).


(* --------------------------------------------------------------------- *)
(* Time                                                                  *)
(* --------------------------------------------------------------------- *)

(* A time.Time is an instant in nanoseconds; a time.Duration and a Go int
   are 64-bit signed integers, whose arithmetic wraps around. *)
Abbreviation Time := Z.

Definition minInt64 : Z := - 2 ^ 63.
Definition maxInt64 : Z := 2 ^ 63 - 1.

Definition wrap64 (z : Z) : Z := (z + 2 ^ 63) mod 2 ^ 64 - 2 ^ 63.

Definition mul64 (a b : Z) : Z := wrap64 (a * b).

(* time.Hour, in nanoseconds *)
Definition time_Hour : Z := 3600000000000.

(* t.Sub(u): the difference, or the largest (smallest) Duration when the
   difference does not fit. *)
Definition time_Sub (t u : Time) : Z :=
  if decide (t - u < minInt64) then minInt64
  else if decide (maxInt64 < t - u) then maxInt64
  else t - u.

(* --------------------------------------------------------------------- *)
(* The file system                                                       *)
(* --------------------------------------------------------------------- *)

Inductive error : Set :=
  | ENOENT | EEXIST | ENOTDIR | EISDIR | EACCES | ENOTEMPTY | EJSON.

Global Instance error_eq_dec : EqDecision error.
Proof. solve_decision. Defined.

(* os.IsNotExist *)
Definition os_IsNotExist (e : error) : bool := bool_decide (e = ENOENT).

Inductive result (A : Type) : Type :=
  | Ok (a : A)
  | Err (e : error).
Arguments Ok {A} a.
Arguments Err {A} e.

Global Instance result_eq_dec {A : Type} `{EqDecision A} : EqDecision (result A).
Proof. solve_decision. Defined.

(* A regular file has its bytes, its modification time and whether its
   owner may open it (for reading and for writing); a directory has
   whether it may be listed and whether entries may be added to it and
   removed from it.  Search permission along a path is taken for granted. *)
Inductive Node : Type :=
  | File (data : bytes) (modTime : Time) (rw : bool)
  | Dir (r w : bool).

(* Is the node a regular file that its owner may open? *)
Definition readable (n : Node) : bool :=
  match n with
  | File _ _ rw => rw
  | Dir _ _ => false
  end.

Global Instance byte_eq_dec : EqDecision byte := Byte.byte_eq_dec.

Global Instance Node_eq_dec : EqDecision Node.
Proof. solve_decision. Defined.

(* The file system: the nodes by path.  The root [] is a directory that is
   always there. *)
Abbreviation FS := (gmap Path Node).

Record FileInfo : Type := mkInfo {
  Name : string;
  IsDir : bool;
  ModTime : Time
}.

Global Instance FileInfo_eq_dec : EqDecision FileInfo.
Proof. solve_decision. Defined.

Definition info_of (p : Path) (n : Node) : FileInfo :=
  match n with
  | File _ t _ => mkInfo (filepath_Base p) false t
  | Dir _ _ => mkInfo (filepath_Base p) true 0
  end.

Definition is_file (n : Node) : bool :=
  match n with
  | File _ _ _ => true
  | Dir _ _ => false
  end.

(* Is a component on the way to p a regular file?  (The root [] is a
   directory.) *)
Definition file_on_the_way (fs : FS) (p : Path) : bool :=
  bool_decide
    (map_Exists (λ q n, q ≠ [] ∧ q `prefix_of` p ∧ q ≠ p ∧ is_file n = true) fs).

(* The error of a system call on a path that has no node: ENOTDIR when a
   component on the way is a regular file, ENOENT when a component is
   missing.  (A node that is in the map is reached: in a file system the
   components on the way to it are directories.) *)
Definition absent (fs : FS) (p : Path) : error :=
  if file_on_the_way fs p then ENOTDIR else ENOENT.

(* os.Stat / os.Lstat (there are no symbolic links in the model) *)
Definition os_Stat (fs : FS) (p : Path) : result FileInfo :=
  match fs !! p with
  | Some n => Ok (info_of p n)
  | None => Err (absent fs p)
  end.

(* The permissions (r, w) of the directory at p, if p is one. *)
Definition dir_at (fs : FS) (p : Path) : result (bool * bool) :=
  match p with
  | [] => Ok (true, true)
  | _ =>
      match fs !! p with
      | Some (Dir r w) => Ok (r, w)
      | Some (File _ _ _) => Err ENOTDIR
      | None => Err (absent fs p)
      end
  end.

(* May an entry be created in, or removed from, the parent of p? *)
Definition parent_writable (fs : FS) (p : Path) : result unit :=
  match dir_at fs (filepath_Dir p) with
  | Ok (_, true) => Ok tt
  | Ok (_, false) => Err EACCES
  | Err e => Err e
  end.

(* os.Mkdir *)
Definition os_Mkdir (fs : FS) (p : Path) : result FS :=
  match fs !! p with
  | Some _ => Err EEXIST
  | None =>
      match parent_writable fs p with
      | Ok _ => Ok (<[p := Dir true true]> fs)
      | Err e => Err e
      end
  end.

(* os.MkdirAll: the directories on the way to dir ++ names are made one
   after the other, those that are there are left as they are. *)
Fixpoint mkdir_from (fs : FS) (dir : Path) (names : list string) : result FS :=
  match names with
  | [] => Ok fs
  | n :: rest =>
      let p := dir ++ [n] in
      match fs !! p with
      | Some (Dir _ _) => mkdir_from fs p rest
      | Some (File _ _ _) => Err ENOTDIR
      | None =>
          match os_Mkdir fs p with
          | Ok fs' => mkdir_from fs' p rest
          | Err e => Err e
          end
      end
  end.

Definition os_MkdirAll (fs : FS) (p : Path) : result FS := mkdir_from fs [] p.

(* os.Create: O_RDWR|O_CREATE|O_TRUNC.  The file is created empty, or
   truncated when it is there; [now] becomes its modification time. *)
Definition os_Create (fs : FS) (now : Time) (p : Path) : result FS :=
  match fs !! p with
  | Some (Dir _ _) => Err EISDIR
  | Some (File _ _ true) => Ok (<[p := File [] now true]> fs)
  | Some (File _ _ false) => Err EACCES
  | None =>
      match parent_writable fs p with
      | Ok _ => Ok (<[p := File [] now true]> fs)
      | Err e => Err e
      end
  end.

(* File.Write on the file just created at p.  A full disk is not
   modelled: the write does not fail. *)
Definition file_Write (fs : FS) (now : Time) (p : Path) (b : bytes) : result FS :=
  Ok (<[p := File b now true]> fs).

(* ioutil.WriteFile: O_WRONLY|O_CREATE|O_TRUNC, then Write *)
Definition ioutil_WriteFile (fs : FS) (now : Time) (p : Path) (b : bytes) : result FS :=
  match os_Create fs now p with
  | Ok fs' => file_Write fs' now p b
  | Err e => Err e
  end.

(* ioutil.ReadFile *)
Definition ioutil_ReadFile (fs : FS) (p : Path) : result bytes :=
  match fs !! p with
  | Some (File d _ true) => Ok d
  | Some (File _ _ false) => Err EACCES
  | Some (Dir _ _) => Err EISDIR
  | None => Err (absent fs p)
  end.

(* os.Open: a directory can be opened too; the handle is the node. *)
Definition os_Open (fs : FS) (p : Path) : result Node :=
  match fs !! p with
  | Some (File d t true) => Ok (File d t true)
  | Some (File _ _ false) => Err EACCES
  | Some (Dir true w) => Ok (Dir true w)
  | Some (Dir false _) => Err EACCES
  | None => Err (absent fs p)
  end.

(* ioutil.ReadAll: the bytes read so far (never nil) and the error of the
   read; reading a directory fails. *)
Definition ioutil_ReadAll (h : Node) : option bytes * option error :=
  match h with
  | File d _ _ => (Some d, None)
  | Dir _ _ => (Some [], Some EISDIR)
  end.

(* Does p have an entry below it? *)
Definition has_children (fs : FS) (p : Path) : bool :=
  bool_decide (map_Exists (λ q _, p `prefix_of` q ∧ q ≠ p) fs).

(* os.Remove: a file, or a directory that is empty *)
Definition os_Remove (fs : FS) (p : Path) : result FS :=
  match fs !! p with
  | None => Err (absent fs p)
  | Some n =>
      match parent_writable fs p with
      | Err e => Err e
      | Ok _ =>
          match n with
          | File _ _ _ => Ok (delete p fs)
          | Dir _ _ => if has_children fs p then Err ENOTEMPTY else Ok (delete p fs)
          end
      end
  end.

(* os.RemoveAll removes what it can and reports an error when something
   stays.  A node goes when it and every node below it can be unlinked
   from its parent. *)
Definition unlinkable (fs : FS) (q : Path) : Prop := parent_writable fs q = Ok tt.


Definition goes (fs : FS) (q : Path) : Prop :=
  map_Forall (λ q' _, q `prefix_of` q' → unlinkable fs q') fs.

Global Instance goes_dec fs q : Decision (goes fs q).
Proof. unfold goes, unlinkable. apply _. Defined.

Definition os_RemoveAll (fs : FS) (p : Path) : FS * option error :=
  let fs' := filter (λ x, ¬ (p `prefix_of` x.1 ∧ goes fs x.1)) fs in
  (fs', match fs' !! p with Some _ => Some EACCES | None => None end).

(* The order in which a directory is listed and a tree is walked: by name,
   a directory before what it holds. *)
Fixpoint path_leb (p q : Path) : bool :=
  match p, q with
  | [], _ => true
  | _ :: _, [] => false
  | a :: p', b :: q' => if decide (a = b) then path_leb p' q' else String.leb a b
  end.

Definition walk_le (x y : Path * Node) : Prop := path_leb x.1 y.1 = true.

Global Instance walk_le_dec x y : Decision (walk_le x y).
Proof. unfold walk_le. apply _. Defined.

(* The nodes at and below root, in walking order *)
Definition walk_order (fs : FS) (root : Path) : list (Path * Node) :=
  merge_sort walk_le (map_to_list (filter (λ x, root `prefix_of` x.1) fs)).

Definition is_child (dir p : Path) : Prop := p ≠ [] ∧ filepath_Dir p = dir.

Global Instance is_child_dec dir p : Decision (is_child dir p).
Proof. unfold is_child. apply _. Defined.

(* os.ReadDir: the entries of the directory, sorted by file name *)
Definition os_ReadDir (fs : FS) (dir : Path) : result (list FileInfo) :=
  match dir_at fs dir with
  | Err e => Err e
  | Ok (false, _) => Err EACCES
  | Ok (true, _) =>
      Ok ((λ x, info_of x.1 x.2) <$>
            merge_sort walk_le (map_to_list (filter (λ x, is_child dir x.1) fs)))
  end.

(* filepath.Walk.  It calls fn on root and on every node below it in
   walking order, with the error of listing the node when it is a
   directory that cannot be listed, and stops at the first error fn
   returns.  fn may change the file system; the nodes are those of the
   file system as Walk finds it, which is what Walk visits when fn does no
   more than remove the file it is called on. *)
Section Walk.
Context {St : Type}.
Variable fn : Path → FileInfo → option error → St → St * option error.

Fixpoint walk_nodes (l : list (Path * Node)) (st : St) : St * option error :=
  match l with
  | [] => (st, None)
  | (p, n) :: rest =>
      let err := match n with Dir false _ => Some EACCES | _ => None end in
      match fn p (info_of p n) err st with
      | (st', Some e) => (st', Some e)
      | (st', None) => walk_nodes rest st'
      end
  end.

Definition filepath_Walk (fs : FS) (root : Path) (st : St) : St * option error :=
  match os_Stat fs root with
  | Err e => fn root (mkInfo "" false 0) (Some e) st
  | Ok _ => walk_nodes (walk_order fs root) st
  end.
End Walk.

(* --------------------------------------------------------------------- *)
(* The cache                                                             *)
(* --------------------------------------------------------------------- *)

Record FileSystemCache : Type := { root : Path }.

Record Entry : Type := mkEntry {
  Content : string;
  LastUsed : Time
}.

Global Instance Entry_eq_dec : EqDecision Entry.
Proof. solve_decision. Defined.

(* type Entries map[string]Entry *)
Abbreviation Entries := (gmap string Entry).

(* What the program prints *)
Inductive msg : Type :=
  | ErrorReadingCacheJSON (e : error)
  | ErrorDecodingCacheJSON (e : error)
  | ErrorReadingFile (e : error)
  | ErrorDeletingFile (e : error)
  | ErrorDeletingPath (e : error)
  | FoundCacheEntries (n : nat) (root : Path)
  | NoOutdatedEntries
  | RemovedOutdated (n : Z).

Global Instance msg_eq_dec : EqDecision msg.
Proof. solve_decision. Defined.

(* --------------------------------------------------------------------- *)
(* A document format to run the cache on                                 *)
(* --------------------------------------------------------------------- *)

(* encoding/json is a parameter of the cache below.  To run the cache on
   concrete file systems it is instantiated with this line format, one
   entry per line, sorted by key:  key SP last_used SP content LF.
   Like json.Unmarshal, decoding stops at the first line that is not an
   entry and keeps the entries before it. *)
Module Lines.

Definition LF : ascii := ascii_of_nat 10.
Definition SP : ascii := ascii_of_nat 32.

Fixpoint split_lines (s : string) : list string :=
  match s with
  | "" => []
  | String c r =>
      if Ascii.eqb c LF then "" :: split_lines r
      else
        match split_lines r with
        | [] => [String c ""]
        | l :: ls => String c l :: ls
        end
  end.

Fixpoint split_first (s : string) : option (string * string) :=
  match s with
  | "" => None
  | String c r =>
      if Ascii.eqb c SP then Some ("", r)
      else '(x, y) ← split_first r; Some (String c x, y)
  end.

Fixpoint parse_dec (s : string) (acc : Z) : option Z :=
  match s with
  | "" => Some acc
  | String c r =>
      let d := Z.of_nat (nat_of_ascii c) - 48 in
      if decide (0 ≤ d ≤ 9) then parse_dec r (acc * 10 + d) else None
  end.

Definition parse_entry (l : string) : option (string * Entry) :=
  '(key, r) ← split_first l;
  '(t, content) ← split_first r;
  if decide (t = "") then None
  else lastUsed ← parse_dec t 0; Some (key, mkEntry content lastUsed).

Fixpoint parse_lines (ls : list string) (entries : Entries)
    : Entries * option error :=
  match ls with
  | [] => (entries, None)
  | l :: rest =>
      match parse_entry l with
      | Some (key, e) => parse_lines rest (<[key := e]> entries)
      | None => (entries, Some EJSON)
      end
  end.

Definition Unmarshal (data : bytes) : Entries * option error :=
  parse_lines (split_lines (go_string data)) ∅.

Definition print_entry (kv : string * Entry) : string :=
  kv.1 +:+ String SP (pretty kv.2.(LastUsed) +:+ String SP
    (kv.2.(Content) +:+ String LF "")).

Definition key_le (x y : string * Entry) : Prop := String.leb x.1 y.1 = true.

Global Instance key_le_dec x y : Decision (key_le x y).
Proof. unfold key_le. apply _. Defined.

Definition MarshalIndent (entries : Entries) : result bytes :=
  Ok (go_bytes
        (foldr (λ kv acc, print_entry kv +:+ acc) ""
           (merge_sort key_le (map_to_list entries)))).

End Lines.

(* --------------------------------------------------------------------- *)
(* Concrete file systems                                                 *)
(* --------------------------------------------------------------------- *)

(* An index file whose second line is not an entry: the entry of the first
   line is returned together with the warning. *)
Definition fs_broken_index : FS :=
  {[ ["cache"] := Dir true true;
     ["cache"; "entries.json"] :=
       File (go_bytes ("ab01ff 400 hello" +:+ String Lines.LF
                         ("cd02ee oops" +:+ String Lines.LF ""))) 0 true ]}.


Definition cache : FileSystemCache := {| root := ["cache"] |}.

Definition hello : bytes := go_bytes "hello".

(* A cache without any entry *)
Definition fs_empty_cache : FS := {[ ["cache"] := Dir true true ]}.

(* ab01ff has been saved and nothing has been pruned yet. *)
Definition fs_sharded_only : FS :=
  {[ ["cache"] := Dir true true;
     ["cache"; "ab"] := Dir true true;
     ["cache"; "ab"; "01"] := Dir true true;
     ["cache"; "ab"; "01"; "ff"] := File hello 500 true ]}.

(* ab01ff is in the consolidated index, last used at 400; the index file
   was written at 450. *)
Definition fs_indexed : FS :=
  {[ ["cache"] := Dir true true;
     ["cache"; "entries.json"] :=
       File (go_bytes ("ab01ff 400 hello" +:+ String Lines.LF "")) 450 true ]}.

(* fs_indexed after FindEntry has found ab01ff in the index at time 1000 *)
Definition fs_indexed_found : FS :=
  <[ ["cache"; "ab"; "01"; "ff"] := File hello 1000 true ]>
    (<[ ["cache"; "ab"; "01"] := Dir true true ]>
       (<[ ["cache"; "ab"] := Dir true true ]> fs_indexed)).

(* fs_indexed after "howdy" has been saved for ab01ff at time 900 *)
Definition fs_indexed_saved : FS :=
  <[ ["cache"; "ab"; "01"; "ff"] := File (go_bytes "howdy") 900 true ]>
    (<[ ["cache"; "ab"; "01"] := Dir true true ]>
       (<[ ["cache"; "ab"] := Dir true true ]> fs_indexed)).

(* fs_sharded_only after "howdy" has been saved for ab01ff at time 900 *)
Definition fs_sharded_saved : FS :=
  <[ ["cache"; "ab"; "01"; "ff"] := File (go_bytes "howdy") 900 true ]>
    fs_sharded_only.

(* The shard directory ab cannot be modified: its entries cannot be
   removed. *)
Definition fs_locked_shard : FS :=
  {[ ["cache"] := Dir true true;
     ["cache"; "ab"] := Dir true false;
     ["cache"; "ab"; "01"] := Dir true true;
     ["cache"; "ab"; "01"; "ff"] := File hello 500 true ]}.

Definition fs_locked_shard_walked : FS :=
  delete ["cache"; "ab"; "01"; "ff"] fs_locked_shard.

(* A cache with a stray file README in its root and two entry files, of
   which ab01ee and README cannot be read. *)
Definition fs_stray : FS :=
  {[ ["cache"] := Dir true true;
     ["cache"; "README"] := File hello 100 false;
     ["cache"; "ab"] := Dir true true;
     ["cache"; "ab"; "01"] := Dir true true;
     ["cache"; "ab"; "01"; "ee"] := File hello 100 false;
     ["cache"; "ab"; "01"; "ff"] := File hello 500 true ]}.

(* fs_stray after a prune pass at time 1000 with a window of one week *)
Definition fs_stray_pruned : FS :=
  {[ ["cache"] := Dir true true;
     ["cache"; "README"] := File hello 100 false;
     ["cache"; "entries.json"] :=
       File (go_bytes ("ab01ff 500 hello" +:+ String Lines.LF "")) 1000 true ]}.

Definition log_stray_pruned : list msg :=
  [ErrorReadingFile EACCES; ErrorReadingFile EACCES;
   FoundCacheEntries 1 ["cache"]; NoOutdatedEntries].


(* fs_sharded_only after a prune pass at time 1000 with a window of one
   week: the entry ab01ff is in the index. *)
Definition fs_sharded_pruned : FS :=
  {[ ["cache"] := Dir true true;
     ["cache"; "entries.json"] :=
       File (go_bytes ("ab01ff 500 hello" +:+ String Lines.LF "")) 1000 true ]}.

(* A file system in which the cache has never been used *)
Definition fs_no_cache : FS := {[ ["home"] := Dir true true ]}.


(* The shard directory cd is a regular file. *)
Definition fs_file_shard : FS :=
  {[ ["cache"] := Dir true true;
     ["cache"; "cd"] := File hello 100 true ]}.

(* The index has an entry for ab01ee, last used at 900; the entry file of
   ab01ee cannot be read. *)
Definition fs_unreadable_indexed : FS :=
  {[ ["cache"] := Dir true true;
     ["cache"; "ab"] := Dir true true;
     ["cache"; "ab"; "01"] := Dir true true;
     ["cache"; "ab"; "01"; "ee"] := File hello 100 false;
     ["cache"; "entries.json"] :=
       File (go_bytes ("ab01ee 900 howdy" +:+ String Lines.LF "")) 950 true ]}.

Section Cache.

(* encoding/json.  [json_Unmarshal data] is the map that
   json.Unmarshal(data, &entries) leaves in an empty [entries], and the
   error it returns; [json_MarshalIndent e] is
   json.MarshalIndent(e, "", "  "). *)
Variable json_Unmarshal : bytes → Entries * option error.
Variable json_MarshalIndent : Entries → result bytes.

(* func readJson(filepath string) Entries *)
Definition readJson (fs : FS) (filepath : Path) : Entries * list msg :=
  if match os_Stat fs filepath with
     | Err err => os_IsNotExist err
     | Ok _ => false
     end
  then (∅, []) (* file doesn't exist yet, equivalent to empty file *)
  else
      match ioutil_ReadFile fs filepath with
      | Err err => (∅, [ErrorReadingCacheJSON err])
      | Ok jsonData =>
          let '(entries, err) := json_Unmarshal jsonData in
          match err with
          | Some e => (entries, [ErrorDecodingCacheJSON e])
          | None => (entries, [])
          end
      end.

(* func (c *FileSystemCache) SaveEntry(digest []byte, content []byte) error
   [None] is a panic (of defineEntryPath). *)
Definition SaveEntry (c : FileSystemCache) (fs : FS) (now : Time)
    (digest content : bytes) : option (FS * option error) :=
  '(entryRoot, entryPath) ← defineEntryPath c.(root) digest;
  Some
    match os_MkdirAll fs entryRoot with
    | Err err => (fs, Some err)
    | Ok fs1 =>
        match os_Create fs1 now entryPath with
        | Err err => (fs1, Some err)
        | Ok fs2 =>
            match file_Write fs2 now entryPath content with
            | Err err => (fs2, Some err)
            | Ok fs3 => (fs3, None)
            end
        end
    end.

(* func checkJsonEntry(c *FileSystemCache, digest []byte) []byte *)
Definition checkJsonEntry (c : FileSystemCache) (fs : FS) (now : Time)
    (digest : bytes) : option (FS * list msg * option bytes) :=
  let '(entries, log) := readJson fs (path_Join c.(root) [ENTRIES_FILE]) in
  match entries !! hex_EncodeToString digest with
  | None => Some (fs, log, None)
  | Some entry =>
      let result := go_bytes entry.(Content) in
      (* to update the last used time; the error is dropped *)
      '(fs', _) ← SaveEntry c fs now digest result;
      Some (fs', log, Some result)
  end.

(* func checkFsEntry(c *FileSystemCache, digest []byte) ([]byte, error) *)
Definition checkFsEntry (c : FileSystemCache) (fs : FS)
    (digest : bytes) : option (option bytes * option error) :=
  '(_, entryPath) ← defineEntryPath c.(root) digest;
  Some
    match os_Stat fs entryPath with
    | Err err => if os_IsNotExist err then (None, None) else (None, Some err)
    | Ok _ =>
        match os_Open fs entryPath with
        | Err err => (None, Some err)
        | Ok source => ioutil_ReadAll source
        end
    end.

(* func (c *FileSystemCache) FindEntry(digest []byte) ([]byte, error) *)
Definition FindEntry (c : FileSystemCache) (fs : FS) (now : Time)
    (digest : bytes) : option (FS * list msg * (option bytes * option error)) :=
  '(fs1, log, content) ← checkJsonEntry c fs now digest;
  match content with
  | Some content => Some (fs1, log, (Some content, None))
  | None => r ← checkFsEntry c fs1 digest; Some (fs1, log, r)
  end.

(* The function Prune gives to filepath.Walk.  Its state is the file
   system, the entries collected so far and what has been printed. *)
Definition prune_visit (path : Path) (info : FileInfo) (err : option error)
    (st : FS * Entries * list msg) : FS * Entries * list msg * option error :=
  let '(fs, entries, log) := st in
  match err with
  | Some err => (st, Some err)
  | None =>
      if info.(IsDir) || bool_decide (info.(Name) = ENTRIES_FILE) then (st, None)
      else
        match ioutil_ReadFile fs path with
        | Err err => ((fs, entries, log ++ [ErrorReadingFile err]), None)
        | Ok content =>
            (* The digest is split over 2 parent dir name and the file name *)
            let parent1 := filepath_Base (filepath_Dir (filepath_Dir path)) in
            let parent2 := filepath_Base (filepath_Dir path) in
            let digest := parent1 +:+ parent2 +:+ info.(Name) in
            let entries :=
              <[digest := mkEntry (go_string content) info.(ModTime)]> entries in
            match os_Remove fs path with
            | Err err => ((fs, entries, log ++ [ErrorDeletingFile err]), None)
            | Ok fs' => ((fs', entries, log), None)
            end
        end
  end.

(* Populate `Entries` from the many files in the filesystem *)
Definition prune_migrate (root : Path) (fs : FS)
    : FS * Entries * list msg * option error :=
  let '(entries, log) := readJson fs (path_Join root [ENTRIES_FILE]) in
  filepath_Walk prune_visit fs root (fs, entries, log).

(* Remove all the directories as well now that they are empty *)
Fixpoint remove_dirs (root : Path) (paths : list FileInfo) (fs : FS)
    (log : list msg) : FS * list msg * option error :=
  match paths with
  | [] => (fs, log, None)
  | pathInfo :: rest =>
      if negb pathInfo.(IsDir) then remove_dirs root rest fs log
      else
        match os_RemoveAll fs (path_Join root [pathInfo.(Name)]) with
        | (fs', Some err) => (fs', log ++ [ErrorDeletingPath err], Some err)
        | (fs', None) => remove_dirs root rest fs' log
        end
  end.

Definition prune_cleanup (root : Path) (fs : FS) (log : list msg)
    : FS * list msg * option error :=
  match os_ReadDir fs root with
  | Err err => (fs, log, Some err)
  | Ok paths => remove_dirs root paths fs log
  end.

(* time.Duration(numWeeks*7*24) * time.Hour *)
Definition retention (numWeeks : Z) : Z :=
  mul64 (mul64 (mul64 numWeeks 7) 24) time_Hour.

(* Keep only the most recent entries *)
Definition prune_evict (now : Time) (duration : Z) (entries : Entries) : Entries :=
  filter (λ kv : string * Entry, (time_Sub now kv.2.(LastUsed) ≤ duration)%Z) entries.

(* func Prune(numWeeks int) error; root is GetFileSystemCachePath() *)
Definition Prune (root : Path) (fs : FS) (now : Time) (numWeeks : Z)
    : FS * list msg * option error :=
  match os_MkdirAll fs root with
  | Err err => (fs, [], Some err)
  | Ok fs0 =>
      match prune_migrate root fs0 with
      | ((fs1, _, log1), Some err) => (fs1, log1, Some err)
      | ((fs1, entries, log1), None) =>
          match prune_cleanup root fs1 log1 with
          | (fs2, log2, Some err) => (fs2, log2, Some err)
          | (fs2, log2, None) =>
              let duration := retention numWeeks in
              let prunedEntries := prune_evict now duration entries in
              let diff := (size entries - size prunedEntries)%nat in
              let log3 :=
                log2 ++ [FoundCacheEntries (size entries) root;
                         if decide (diff = 0%nat) then NoOutdatedEntries
                         else RemovedOutdated (Z.of_nat diff)] in
              match json_MarshalIndent prunedEntries with
              | Err err => (fs2, log3, Some err)
              | Ok jsonData =>
                  match ioutil_WriteFile fs2 now
                          (path_Join root [ENTRIES_FILE]) jsonData with
                  | Err err => (fs2, log3, Some err)
                  | Ok fs3 => (fs3, log3, None)
                  end
              end
          end
      end
  end.


(* The two tiers, as the cache sees them: the consolidated index that
   readJson loads, and the node at the entry path of a digest. *)
Definition index (root : Path) (fs : FS) : Entries :=
  (readJson fs (path_Join root [ENTRIES_FILE])).1.

Definition entry_file (root : Path) (fs : FS) (digest : bytes) : option Node :=
  '(_, entryPath) ← defineEntryPath root digest; fs !! entryPath.

(* Is a component on the way to the entry path of the digest (the cache
   root, a shard directory, or what is above them) a regular file? *)
Definition entry_barred (root : Path) (fs : FS) (digest : bytes) : bool :=
  match defineEntryPath root digest with
  | Some (_, entryPath) => file_on_the_way fs entryPath
  | None => false
  end.

(* The key under which Prune files the entry file at path: the names of its
   two parent directories and its own name. *)
Definition digest_of (path : Path) : string :=
  filepath_Base (filepath_Dir (filepath_Dir path))
    +:+ filepath_Base (filepath_Dir path) +:+ filepath_Base path.

(* In a file system every node but the root has a name and sits in a
   directory (the root or a directory that is in the map). *)
Definition fs_wf (fs : FS) : Prop :=
  map_Forall
    (λ p _, p ≠ [] →
       filepath_Base p ≠ ""
       ∧ (filepath_Dir p = [] ∨ ∃ r w, fs !! filepath_Dir p = Some (Dir r w))) fs.

Global Instance fs_wf_dec (fs : FS) : Decision (fs_wf fs).
Proof. unfold fs_wf. apply _. Defined.

(* The entries that a pass of Prune hands to json.MarshalIndent, when it
   gets that far. *)
Definition Prune_index (root : Path) (fs : FS) (now : Time) (numWeeks : Z)
    : option Entries :=
  match os_MkdirAll fs root with
  | Ok fs0 =>
      match prune_migrate root fs0 with
      | ((_, entries, _), None) =>
          Some (prune_evict now (retention numWeeks) entries)
      | _ => None
      end
  | Err _ => None
  end.

(* The document written for the entries is read back as these entries. *)
Definition reads_back (entries : Entries) : Prop :=
  match json_MarshalIndent entries with
  | Ok jsonData => json_Unmarshal jsonData = (entries, None)
  | Err _ => True
  end.

Global Instance reads_back_dec (entries : Entries) : Decision (reads_back entries).
Proof. unfold reads_back. destruct (json_MarshalIndent entries); apply _. Defined.


(* A tree of entry files as SaveEntry writes it: every regular file below
   the root that can be read, but for files called entries.json, is the
   entry file of a digest of at least three bytes. *)
Definition sharded_tree (root : Path) (fs : FS) : Prop :=
  ∀ p d t, fs !! p = Some (File d t true) → root `prefix_of` p →
           filepath_Base p ≠ ENTRIES_FILE →
           ∃ digest er, (3 ≤ length digest)%nat
                        ∧ defineEntryPath root digest = Some (er, p).

(* The list of nodes handed to the walk: each path once, each node there. *)
Definition walk_ok (l : list (Path * Node)) (fs : FS) : Prop :=
  NoDup l.*1 ∧ ∀ p n, (p, n) ∈ l → fs !! p = Some n.

(* ------------------------------------------------------------------- *)
(* Path resolution                                                     *)
(* ------------------------------------------------------------------- *)

Lemma hex_length (d : bytes) :
  String.length (hex_EncodeToString d) = (2 * length d)%nat.
Proof. induction d as [|b d IH]; simpl; [done | rewrite IH; lia]. Qed.

Lemma defineEntryPath_long (root : Path) (digest : bytes) :
  (5 ≤ String.length (hex_EncodeToString digest))%nat →
  let h := hex_EncodeToString digest in
  defineEntryPath root digest =
    Some (root ++ [substring 0 2 h; substring 2 2 h],
          root ++ [substring 0 2 h; substring 2 2 h;
                   substring 4 (String.length h - 4) h]).
Proof.
  intros Hlen. rewrite hex_length in Hlen.
  destruct digest as [|b1 [|b2 [|b3 rest]]]; simpl in Hlen; try lia.
  unfold defineEntryPath, slice_from, slice. cbn [hex_EncodeToString].
  set (r := hex_EncodeToString rest).
  cbn. rewrite !decide_True by lia. cbn.
  unfold path_Join. rewrite !filter_cons_True by done. rewrite filter_nil.
  rewrite <- app_assoc. reflexivity.
Qed.

(** C8: for a digest of at least 5 hex characters, defineEntryPath returns
    shardDir = root/hex[0:2]/hex[2:4] and entryPath = shardDir/hex[4:];
    two such digests that differ only in their first two hex characters
    get different shard directories and different entry paths. *)
Theorem defineEntryPath_partition (root : Path) (digest digest' : bytes) :
  let h := hex_EncodeToString digest in
  let h' := hex_EncodeToString digest' in
  (5 ≤ String.length h)%nat →
  defineEntryPath root digest =
    Some (root ++ [substring 0 2 h; substring 2 2 h],
          root ++ [substring 0 2 h; substring 2 2 h;
                   substring 4 (String.length h - 4) h])
  ∧ (String.length h' = String.length h →
     substring 2 (String.length h - 2) h' = substring 2 (String.length h - 2) h →
     substring 0 2 h' ≠ substring 0 2 h →
     ∃ dir path dir' path',
       defineEntryPath root digest = Some (dir, path)
       ∧ defineEntryPath root digest' = Some (dir', path')
       ∧ dir ≠ dir' ∧ path ≠ path').
Proof.
  intros h h' Hlen. split; [by apply defineEntryPath_long|].
  intros Hlen' _ Hne.
  eexists _, _, _, _. split; [by apply defineEntryPath_long|].
  split; [apply defineEntryPath_long; fold h'; lia|].
  fold h h'. split; intros Heq; apply app_inv_head in Heq; congruence.
Qed.

(* ------------------------------------------------------------------- *)
(* The retention window                                                *)
(* ------------------------------------------------------------------- *)

Lemma wrap64_small (z : Z) : minInt64 ≤ z ≤ maxInt64 → wrap64 z = z.
Proof.
  unfold minInt64, maxInt64, wrap64. intros Hz.
  rewrite Z.mod_small by lia. lia.
Qed.

Lemma retention_small (numWeeks : Z) :
  -15250 ≤ numWeeks ≤ 15250 →
  retention numWeeks = numWeeks * 7 * 24 * time_Hour.
Proof.
  intros Hw. unfold retention, mul64, time_Hour.
  rewrite (wrap64_small (numWeeks * 7)) by (unfold minInt64, maxInt64; lia).
  rewrite (wrap64_small (numWeeks * 7 * 24)) by (unfold minInt64, maxInt64; lia).
  apply wrap64_small. unfold minInt64, maxInt64. lia.
Qed.

Lemma time_Sub_le (now t d : Z) :
  minInt64 < d < maxInt64 → time_Sub now t ≤ d ↔ now - t ≤ d.
Proof.
  intros Hd. unfold time_Sub. repeat case_decide; lia.
Qed.

(** Where the duration fits: for a retention window of W whole weeks with
    -15250 <= W <= 15250, the window is the duration W*7*24 hours, and an
    index entry last used at T is kept by the eviction of prune iff
    now - T <= W*7*24 hours; it is dropped iff it is strictly older. *)
Theorem prune_evict_window (now : Time) (numWeeks : Z) (entries : Entries)
    (key : string) (value : Entry) :
  -15250 ≤ numWeeks ≤ 15250 →
  entries !! key = Some value →
  retention numWeeks = numWeeks * 7 * 24 * time_Hour
  ∧ (prune_evict now (retention numWeeks) entries !! key = Some value
     ↔ now - value.(LastUsed) ≤ numWeeks * 7 * 24 * time_Hour)
  ∧ (prune_evict now (retention numWeeks) entries !! key = None
     ↔ numWeeks * 7 * 24 * time_Hour < now - value.(LastUsed)).
Proof.
  clear json_Unmarshal json_MarshalIndent.
  intros Hw Hk. pose proof (retention_small numWeeks Hw) as Hr.
  assert (Hd : minInt64 < numWeeks * 7 * 24 * time_Hour < maxInt64)
    by (unfold minInt64, maxInt64, time_Hour; lia).
  split; [done|]. rewrite Hr. unfold prune_evict. split.
  - rewrite map_lookup_filter_Some. simpl. rewrite time_Sub_le by done. tauto.
  - rewrite map_lookup_filter_None. simpl. split.
    + intros [Hn | Hn]; [congruence|].
      specialize (Hn _ Hk). rewrite time_Sub_le in Hn by done. lia.
    + intros Hlt. right. intros v Hv. rewrite time_Sub_le by done.
      assert (v = value) by congruence. subst. lia.
Qed.

(** C4: with a window of 15251 weeks the duration
    time.Duration(numWeeks*7*24) * time.Hour does not fit 64 bits and wraps
    around to a negative number of nanoseconds, and the eviction of prune
    drops every entry that is not from the future, also an entry last used
    at the very instant of the pass, whose age 0 is within the window. *)
Theorem prune_evict_overflow (now : Time) (entries : Entries) (key : string)
    (value : Entry) :
  entries !! key = Some value →
  value.(LastUsed) ≤ now →
  retention 15251 = 15251 * 7 * 24 * time_Hour - 2 ^ 64
  ∧ retention 15251 < 0
  ∧ prune_evict now (retention 15251) entries !! key = None.
Proof.
  clear json_Unmarshal json_MarshalIndent.
  intros Hk Hle.
  assert (Hr : retention 15251 = -9222939273709551616) by (vm_compute; reflexivity).
  rewrite Hr. split; [by vm_compute|]. split; [lia|].
  unfold prune_evict. apply map_lookup_filter_None. right. intros v Hv. simpl.
  assert (v = value) as -> by congruence.
  unfold time_Sub, minInt64, maxInt64. repeat case_decide; lia.
Qed.

(* ------------------------------------------------------------------- *)
(* Loading the index                                                   *)
(* ------------------------------------------------------------------- *)

Lemma prefix_snoc_inv {A : Type} (q l : list A) (x : A) :
  q `prefix_of` l ++ [x] → q ≠ l ++ [x] → q `prefix_of` l.
Proof.
  clear json_Unmarshal json_MarshalIndent.
  intros [k Hk] Hne. destruct (decide (k = [])) as [->|Hk0].
  - by rewrite app_nil_r in Hk.
  - destruct (exists_last Hk0) as (k' & y & ->).
    rewrite app_assoc in Hk. apply app_inj_tail in Hk as [-> _].
    by apply prefix_app_r.
Qed.

(* Which files are on the way to p depends on the nodes above p alone. *)
Lemma file_on_the_way_true (fs : FS) (p : Path) :
  file_on_the_way fs p = true
  ↔ ∃ q d t rw, fs !! q = Some (File d t rw) ∧ q ≠ [] ∧ q `prefix_of` p ∧ q ≠ p.
Proof.
  clear json_Unmarshal json_MarshalIndent.
  unfold file_on_the_way. rewrite bool_decide_eq_true. split.
  - intros (q & n & Hq & Hq0 & Hpre & Hne & Hf). destruct n as [d t rw|]; [|done].
    by exists q, d, t, rw.
  - intros (q & d & t & rw & Hq & Hq0 & Hpre & Hne). by exists q, (File d t rw).
Qed.

Lemma file_on_the_way_ext (fs fs' : FS) (p : Path) :
  (∀ q, q ≠ [] → q `prefix_of` p → q ≠ p →
        from_option is_file false (fs' !! q) = from_option is_file false (fs !! q)) →
  file_on_the_way fs' p = file_on_the_way fs p.
Proof.
  clear json_Unmarshal json_MarshalIndent.
  intros H. apply eq_true_iff_eq. rewrite !file_on_the_way_true.
  split; intros (q & d & t & rw & Hq & Hq0 & Hpre & Hne);
    specialize (H q Hq0 Hpre Hne); rewrite Hq in H; simpl in H.
  - destruct (fs !! q) as [[d' t' rw'|]|] eqn:Hq'; try done.
    by exists q, d', t', rw'.
  - destruct (fs' !! q) as [[d' t' rw'|]|] eqn:Hq'; try done.
    by exists q, d', t', rw'.
Qed.

(* Below directories no file is on the way. *)
Lemma file_on_the_way_dirs (fs : FS) (p : Path) :
  (∀ q, q ≠ [] → q `prefix_of` p → q ≠ p → ∃ r w, fs !! q = Some (Dir r w)) →
  file_on_the_way fs p = false.
Proof.
  clear json_Unmarshal json_MarshalIndent.
  intros H. apply not_true_iff_false. rewrite file_on_the_way_true.
  intros (q & d & t & rw & Hq & Hq0 & Hpre & Hne).
  destruct (H q Hq0 Hpre Hne) as (r & w & Hq'). congruence.
Qed.

Lemma readJson_missing (fs : FS) (filepath : Path) :
  fs !! filepath = None → file_on_the_way fs filepath = false →
  readJson fs filepath = (∅, []).
Proof. intros H Hw. unfold readJson, os_Stat, absent. by rewrite H, Hw. Qed.

Lemma readJson_unreadable (fs : FS) (filepath : Path) (err : error) :
  is_Some (fs !! filepath) →
  ioutil_ReadFile fs filepath = Err err →
  readJson fs filepath = (∅, [ErrorReadingCacheJSON err]).
Proof.
  intros [n Hn] Hr. unfold readJson, os_Stat. rewrite Hn, Hr. done.
Qed.

Lemma readJson_decoded (fs : FS) (filepath : Path) (data : bytes) (t : Time)
    (entries : Entries) :
  fs !! filepath = Some (File data t true) →
  json_Unmarshal data = (entries, None) →
  readJson fs filepath = (entries, []).
Proof.
  intros Hf Hd. unfold readJson, os_Stat, ioutil_ReadFile. rewrite Hf. simpl.
  by rewrite Hd.
Qed.

(* What is read depends on the index file alone. *)
Lemma readJson_ext (fs fs' : FS) (filepath : Path) :
  fs' !! filepath = fs !! filepath →
  file_on_the_way fs' filepath = file_on_the_way fs filepath →
  readJson fs' filepath = readJson fs filepath.
Proof.
  intros H Hw. unfold readJson, os_Stat, ioutil_ReadFile, absent. by rewrite H, Hw.
Qed.

(* A hit in the index means that the index file is there and readable. *)
Lemma readJson_hit (fs : FS) (filepath : Path) (key : string) (e : Entry) :
  (readJson fs filepath).1 !! key = Some e →
  ∃ data t, fs !! filepath = Some (File data t true).
Proof.
  unfold readJson, os_Stat, ioutil_ReadFile, absent.
  destruct (fs !! filepath) as [[data t [|]|r w]|] eqn:Hf; simpl;
    try destruct (file_on_the_way fs filepath); simpl;
    try (rewrite lookup_empty; discriminate).
  all: eauto.
Qed.

(** C5: when the index file is read but json.Unmarshal fails on it,
    readJson prints the decoding error and returns the map as Unmarshal
    left it, which holds the entries decoded before the failure and is
    not the empty map in general. *)
Theorem readJson_decode_error (fs : FS) (filepath : Path) (data : bytes)
    (t : Time) (entries : Entries) (e : error) :
  fs !! filepath = Some (File data t true) →
  json_Unmarshal data = (entries, Some e) →
  readJson fs filepath = (entries, [ErrorDecodingCacheJSON e]).
Proof.
  intros Hf Hd. unfold readJson, os_Stat, ioutil_ReadFile. rewrite Hf. simpl.
  by rewrite Hd.
Qed.

(* ------------------------------------------------------------------- *)
(* Saving an entry                                                     *)
(* ------------------------------------------------------------------- *)

(* MkdirAll only adds directories, on the way to the one it is asked for. *)
Lemma mkdir_from_lookup (fs fs' : FS) (dir : Path) (names : list string) :
  mkdir_from fs dir names = Ok fs' →
  ∀ q, fs' !! q = fs !! q
       ∨ (fs !! q = None ∧ fs' !! q = Some (Dir true true)
          ∧ ∃ k, (0 < k ≤ length names)%nat ∧ q = dir ++ take k names).
Proof.
  revert fs dir. induction names as [|n rest IH]; intros fs dir H q; simpl in H.
  - left. congruence.
  - assert (Hstep : ∀ fs1, mkdir_from fs1 (dir ++ [n]) rest = Ok fs' →
              fs' !! q = fs1 !! q
              ∨ (fs1 !! q = None ∧ fs' !! q = Some (Dir true true)
                 ∧ ∃ k, (0 < k ≤ length (n :: rest))%nat
                        ∧ q = dir ++ take k (n :: rest))).
    { intros fs1 H1. destruct (IH _ _ H1 q) as [?|(?&?&k&?&->)]; [by left|].
      right. split_and!; [done..|]. exists (S k). simpl.
      rewrite <- app_assoc. split; [lia | done]. }
    destruct (fs !! (dir ++ [n])) as [[? ? ?|? ?]|] eqn:Hp; try done.
    { by apply Hstep. }
    unfold os_Mkdir in H. rewrite Hp in H.
    destruct (parent_writable fs (dir ++ [n])); try done.
    destruct (Hstep _ H) as [Hq|(Hq&?&?)].
    + destruct (decide (q = dir ++ [n])) as [->|Hne].
      * right. rewrite Hq, lookup_insert_eq. split_and!; [done..|].
        exists 1%nat. simpl. rewrite take_0. split; [lia | done].
      * left. by rewrite Hq, lookup_insert_ne.
    + right. split_and!; [|done..].
      destruct (decide (q = dir ++ [n])) as [->|Hne]; [done|].
      by rewrite lookup_insert_ne in Hq.
Qed.

Lemma os_MkdirAll_subseteq (fs fs' : FS) (p : Path) :
  os_MkdirAll fs p = Ok fs' → fs ⊆ fs'.
Proof.
  intros H. apply map_subseteq_spec. intros q n Hq.
  destruct (mkdir_from_lookup _ _ _ _ H q) as [->|(?&?&?)]; congruence.
Qed.

(* A path that is not on the way is left alone. *)
Lemma os_MkdirAll_other (fs fs' : FS) (p q : Path) :
  os_MkdirAll fs p = Ok fs' → ¬ q `prefix_of` p → fs' !! q = fs !! q.
Proof.
  intros H Hq. destruct (mkdir_from_lookup _ _ _ _ H q) as [?|(_&_&k&_&->)];
    [done|].
  exfalso. apply Hq. simpl. exists (drop k p). by rewrite take_drop.
Qed.

(* A path that MkdirAll has made is a path of directories. *)
Lemma mkdir_from_all_dirs (fs fs' : FS) (dir : Path) (names : list string) :
  mkdir_from fs dir names = Ok fs' →
  ∀ k, (0 < k ≤ length names)%nat →
       ∃ r w, fs' !! (dir ++ take k names) = Some (Dir r w).
Proof.
  revert fs dir. induction names as [|x names IH]; intros fs dir H k Hk;
    [simpl in Hk; lia|].
  simpl in H.
  assert (Hstep : ∀ fs1 r w, fs1 !! (dir ++ [x]) = Some (Dir r w) →
            mkdir_from fs1 (dir ++ [x]) names = Ok fs' →
            ∃ r w, fs' !! (dir ++ take k (x :: names)) = Some (Dir r w)).
  { intros fs1 r w H1 Hrest. destruct k as [|[|k]]; [lia| |].
    - simpl. rewrite take_0.
      destruct (mkdir_from_lookup _ _ _ _ Hrest (dir ++ [x])) as [->|(? & ? & _)];
        [eauto | congruence].
    - simpl. rewrite (cons_middle x), app_assoc.
      apply (IH _ _ Hrest (S k)). simpl in Hk. lia. }
  destruct (fs !! (dir ++ [x])) as [[? ? ?|r w]|] eqn:Hp; [done|by eapply Hstep|].
  unfold os_Mkdir in H. rewrite Hp in H.
  destruct (parent_writable fs (dir ++ [x])); [|done].
  eapply Hstep; [|done]. apply lookup_insert_eq.
Qed.

(* No file is on the way to what is in a directory that MkdirAll has
   made or found. *)
Lemma os_MkdirAll_way (fs fs' : FS) (dir : Path) (name : string) :
  os_MkdirAll fs dir = Ok fs' → file_on_the_way fs' (dir ++ [name]) = false.
Proof.
  clear json_Unmarshal json_MarshalIndent.
  intros H. apply file_on_the_way_dirs. intros q Hq0 Hpre Hne.
  apply prefix_snoc_inv in Hpre; [|done].
  assert (Hq : q = take (length q) dir).
  { destruct Hpre as [k ->]. by rewrite take_app_length. }
  rewrite Hq.
  apply (mkdir_from_all_dirs _ _ _ _ H (length q)). split.
  - destruct q; [done | simpl; lia].
  - by apply prefix_length.
Qed.



Lemma os_Create_lookup (fs fs' : FS) (now : Time) (p : Path) :
  os_Create fs now p = Ok fs' → fs' = <[p := File [] now true]> fs.
Proof.
  unfold os_Create. intros H.
  destruct (fs !! p) as [[? ? [|]|? ?]|]; try done; [congruence|].
  destruct (parent_writable fs p); [congruence | done].
Qed.

(* What the entry paths of a digest look like. *)
Lemma defineEntryPath_inv (root : Path) (digest : bytes) (er ep : Path) :
  defineEntryPath root digest = Some (er, ep) →
  ∃ a b, String.length a = 2%nat ∧ er = root ++ [a; b]
         ∧ (ep = er ∨ ∃ c, ep = er ++ [c]).
Proof.
  destruct digest as [|b1 [|b2 rest]]; [done..|].
  unfold defineEntryPath, slice_from, slice. cbn [hex_EncodeToString].
  set (r := hex_EncodeToString rest). cbn.
  rewrite !decide_True by lia. cbn.
  unfold path_Join. rewrite !filter_cons_True by done. rewrite !filter_nil.
  intros [= <- <-]. eexists _, _. refine (conj _ (conj eq_refl _)); [reflexivity|].
  match goal with
  | |- context [filter _ [?x]] => destruct (decide (x = "")) as [He|He]
  end.
  - left. rewrite filter_cons_False by (intros Hx; by apply Hx).
    by rewrite filter_nil, app_nil_r.
  - right. eexists. by rewrite filter_cons_True.
Qed.

Lemma index_file_not_on_the_way (root : Path) (a b : string) :
  String.length a = 2%nat →
  ¬ path_Join root [ENTRIES_FILE] `prefix_of` root ++ [a; b].
Proof.
  intros Ha [k Hk]. unfold path_Join in Hk.
  rewrite filter_cons_True, filter_nil in Hk by done.
  rewrite <- app_assoc in Hk. apply app_inv_head in Hk.
  injection Hk as -> _. done.
Qed.

(* SaveEntry leaves the index file alone, whatever becomes of the save. *)
Lemma SaveEntry_index_file (c : FileSystemCache) (fs fs' : FS) (now : Time)
    (digest content : bytes) (err : option error) :
  SaveEntry c fs now digest content = Some (fs', err) →
  fs' !! path_Join c.(root) [ENTRIES_FILE] = fs !! path_Join c.(root) [ENTRIES_FILE].
Proof.
  unfold SaveEntry. destruct (defineEntryPath _ _) as [[er ep]|] eqn:Hp; [|done].
  simpl. destruct (defineEntryPath_inv _ _ _ _ Hp) as (a & b & Ha & -> & Hep).
  pose proof (index_file_not_on_the_way c.(root) a b Ha) as Hway.
  assert (Hne : path_Join c.(root) [ENTRIES_FILE] ≠ ep).
  { intros Heq. apply (f_equal length) in Heq. unfold path_Join in Heq.
    rewrite filter_cons_True, filter_nil in Heq by done.
    destruct Hep as [->|[x ->]]; rewrite !length_app in Heq; simpl in Heq; lia. }
  destruct (os_MkdirAll fs _) as [fs1|e1] eqn:H1; [|by intros [= <- _]].
  pose proof (os_MkdirAll_other _ _ _ _ H1 Hway) as Hk1.
  destruct (os_Create fs1 now ep) as [fs2|e2] eqn:H2; [|by intros [= <- _]].
  apply os_Create_lookup in H2 as ->. unfold file_Write.
  intros [= <- _]. by rewrite !lookup_insert_ne.
Qed.

(* SaveEntry puts no file on the way to the index file. *)
Lemma SaveEntry_index_way (c : FileSystemCache) (fs fs' : FS) (now : Time)
    (digest content : bytes) (err : option error) :
  SaveEntry c fs now digest content = Some (fs', err) →
  file_on_the_way fs' (path_Join c.(root) [ENTRIES_FILE])
    = file_on_the_way fs (path_Join c.(root) [ENTRIES_FILE]).
Proof.
  unfold SaveEntry. destruct (defineEntryPath _ _) as [[er ep]|] eqn:Hp; [|done].
  simpl. destruct (defineEntryPath_inv _ _ _ _ Hp) as (a & b & Ha & -> & Hep).
  intros H. apply file_on_the_way_ext. intros q Hq0 Hpre Hne.
  assert (Hlen : (length q ≤ length c.(root))%nat).
  { unfold path_Join in Hpre. rewrite filter_cons_True, filter_nil in Hpre by done.
    destruct Hpre as [k Hk]. destruct (decide (k = [])) as [->|Hk0].
    - rewrite app_nil_r in Hk. subst q. unfold path_Join in Hne.
      by rewrite filter_cons_True, filter_nil in Hne.
    - destruct (exists_last Hk0) as (k' & x & ->).
      rewrite app_assoc in Hk. apply app_inj_tail in Hk as [-> _].
      rewrite length_app. lia. }
  assert (Hqep : q ≠ ep).
  { intros ->. destruct Hep as [->|[x ->]]; rewrite !length_app in Hlen;
      simpl in Hlen; lia. }
  destruct (os_MkdirAll fs _) as [fs1|e1] eqn:H1; [|by injection H as <- _].
  assert (Hk1 : from_option is_file false (fs1 !! q)
                = from_option is_file false (fs !! q)).
  { by destruct (mkdir_from_lookup _ _ _ _ H1 q) as [->|(-> & -> & _)]. }
  destruct (os_Create fs1 now ep) as [fs2|e2] eqn:H2; [|by injection H as <- _].
  apply os_Create_lookup in H2 as ->. unfold file_Write in H.
  injection H as <- _. by rewrite !lookup_insert_ne.
Qed.

Lemma SaveEntry_index (c : FileSystemCache) (fs fs' : FS) (now : Time)
    (digest content : bytes) (err : option error) :
  SaveEntry c fs now digest content = Some (fs', err) →
  index c.(root) fs' = index c.(root) fs.
Proof.
  intros H. unfold index. f_equal.
  apply readJson_ext; [by eapply SaveEntry_index_file|].
  by eapply SaveEntry_index_way.
Qed.

(* A save that succeeds leaves the content in the entry file. *)
Lemma SaveEntry_entry_file (c : FileSystemCache) (fs fs' : FS) (now : Time)
    (digest content : bytes) :
  SaveEntry c fs now digest content = Some (fs', None) →
  entry_file c.(root) fs' digest = Some (File content now true).
Proof.
  unfold SaveEntry, entry_file.
  destruct (defineEntryPath _ _) as [[er ep]|] eqn:Hp; [|done]. simpl.
  destruct (os_MkdirAll fs _) as [fs1|e1]; [|done].
  destruct (os_Create fs1 now ep) as [fs2|e2]; [|done].
  unfold file_Write. intros [= <-]. by rewrite lookup_insert_eq.
Qed.

Lemma SaveEntry_runs (c : FileSystemCache) (fs : FS) (now : Time)
    (digest content : bytes) :
  is_Some (defineEntryPath c.(root) digest) →
  is_Some (SaveEntry c fs now digest content).
Proof.
  intros [[er ep] Hp]. unfold SaveEntry. rewrite Hp. simpl. eauto.
Qed.

(* ------------------------------------------------------------------- *)
(* Looking an entry up                                                 *)
(* ------------------------------------------------------------------- *)

Lemma checkJsonEntry_miss (c : FileSystemCache) (fs : FS) (now : Time)
    (digest : bytes) :
  index c.(root) fs !! hex_EncodeToString digest = None →
  checkJsonEntry c fs now digest
    = Some (fs, (readJson fs (path_Join c.(root) [ENTRIES_FILE])).2, None).
Proof.
  unfold index, checkJsonEntry.
  destruct (readJson fs _) as [entries log]. simpl. by intros ->.
Qed.

Lemma checkJsonEntry_hit (c : FileSystemCache) (fs : FS) (now : Time)
    (digest : bytes) (entry : Entry) :
  index c.(root) fs !! hex_EncodeToString digest = Some entry →
  checkJsonEntry c fs now digest
    = '(fs', _) ← SaveEntry c fs now digest (go_bytes entry.(Content));
      Some (fs', (readJson fs (path_Join c.(root) [ENTRIES_FILE])).2,
            Some (go_bytes entry.(Content))).
Proof.
  unfold index, checkJsonEntry.
  destruct (readJson fs _) as [entries log]. simpl. by intros ->.
Qed.

Lemma checkFsEntry_file (c : FileSystemCache) (fs : FS) (digest data : bytes)
    (t : Time) :
  entry_file c.(root) fs digest = Some (File data t true) →
  checkFsEntry c fs digest = Some (Some data, None).
Proof.
  unfold entry_file, checkFsEntry.
  destruct (defineEntryPath _ _) as [[er ep]|]; [|done]. simpl.
  intros Hfile. unfold os_Stat, os_Open. by rewrite Hfile.
Qed.

(** C7 (as amended): for every digest D of at least 5 hex characters that
    is absent from the consolidated index and has no node at its entry
    path, FindEntry leaves the file system as it is and returns a nil
    content, with a nil error when no component on the way to the entry
    path is a regular file, and with the error ENOTDIR of Stat when one
    is. *)
Theorem FindEntry_absent (c : FileSystemCache) (fs : FS) (now : Time)
    (digest : bytes) :
  (5 ≤ String.length (hex_EncodeToString digest))%nat →
  index c.(root) fs !! hex_EncodeToString digest = None →
  entry_file c.(root) fs digest = None →
  ∃ log,
    FindEntry c fs now digest
      = Some (fs, log,
              (None, if entry_barred c.(root) fs digest then Some ENOTDIR else None)).
Proof.
  intros Hlen Hidx Hfile. unfold FindEntry.
  rewrite checkJsonEntry_miss by done. simpl.
  unfold entry_file in Hfile. unfold checkFsEntry, entry_barred.
  rewrite (defineEntryPath_long _ _ Hlen) in *. simpl in *.
  unfold os_Stat, absent. rewrite Hfile.
  destruct (file_on_the_way fs _); eexists; reflexivity.
Qed.

(** C1 (as amended): for every digest D that is absent from the
    consolidated index and whose entry file is there and can be opened,
    FindEntry returns the bytes of the file and leaves the file system as
    it is: the index has no entry for D afterwards either. *)
Theorem FindEntry_fallback (c : FileSystemCache) (fs : FS) (now : Time)
    (digest data : bytes) (t : Time) :
  index c.(root) fs !! hex_EncodeToString digest = None →
  entry_file c.(root) fs digest = Some (File data t true) →
  ∃ fs' log,
    FindEntry c fs now digest = Some (fs', log, (Some data, None))
    ∧ fs' = fs
    ∧ index c.(root) fs' !! hex_EncodeToString digest = None.
Proof.
  intros Hidx Hfile. exists fs. eexists. split; [|done].
  unfold FindEntry. rewrite checkJsonEntry_miss by done. simpl.
  by rewrite (checkFsEntry_file _ _ _ _ _ Hfile).
Qed.

(** C2 (as amended): for every digest D that has an entry in the
    consolidated index (and at least 4 hex characters, so that its entry
    path is defined), FindEntry returns the stored content and saves it
    again with SaveEntry, dropping the error of that save: when the save
    succeeds the entry file of D in the sharded tier holds the content
    with the current time as its modification time.  The index file is
    not written: it is the same file afterwards, with the same
    last-used time for D. *)
Theorem FindEntry_index_hit (c : FileSystemCache) (fs : FS) (now : Time)
    (digest : bytes) (entry : Entry) :
  index c.(root) fs !! hex_EncodeToString digest = Some entry →
  is_Some (defineEntryPath c.(root) digest) →
  ∃ fs' log err,
    FindEntry c fs now digest
      = Some (fs', log, (Some (go_bytes entry.(Content)), None))
    ∧ SaveEntry c fs now digest (go_bytes entry.(Content)) = Some (fs', err)
    ∧ fs' !! path_Join c.(root) [ENTRIES_FILE]
        = fs !! path_Join c.(root) [ENTRIES_FILE]
    ∧ index c.(root) fs' !! hex_EncodeToString digest = Some entry
    ∧ (err = None →
       entry_file c.(root) fs' digest
         = Some (File (go_bytes entry.(Content)) now true)).
Proof.
  intros Hidx Hp.
  destruct (SaveEntry_runs c fs now digest (go_bytes entry.(Content)) Hp)
    as [[fs' err] Hsave].
  exists fs', (readJson fs (path_Join c.(root) [ENTRIES_FILE])).2, err.
  split_and!.
  - unfold FindEntry. rewrite (checkJsonEntry_hit _ _ _ _ _ Hidx), Hsave. done.
  - done.
  - eapply SaveEntry_index_file, Hsave.
  - by rewrite (SaveEntry_index _ _ _ _ _ _ _ Hsave).
  - intros ->. eapply SaveEntry_entry_file, Hsave.
Qed.

(** C3 (as amended): for every digest D and content C, after
    SaveEntry(D, C) succeeds, FindEntry(D) returns C, provided the
    consolidated index has no entry for D with another content (the index
    is looked up first and its content is the one returned). *)
Theorem SaveEntry_FindEntry (c : FileSystemCache) (fs fs1 : FS)
    (now now' : Time) (digest content : bytes) :
  SaveEntry c fs now digest content = Some (fs1, None) →
  (∀ e, index c.(root) fs !! hex_EncodeToString digest = Some e →
        go_bytes e.(Content) = content) →
  ∃ fs2 log, FindEntry c fs1 now' digest = Some (fs2, log, (Some content, None)).
Proof.
  intros Hsave Hidx.
  rewrite <- (SaveEntry_index _ _ _ _ _ _ _ Hsave) in Hidx.
  destruct (index c.(root) fs1 !! hex_EncodeToString digest) as [e|] eqn:He.
  - assert (Hp : is_Some (defineEntryPath c.(root) digest)).
    { unfold SaveEntry in Hsave. destruct (defineEntryPath _ _); [eauto|done]. }
    destruct (SaveEntry_runs c fs1 now' digest (go_bytes e.(Content)) Hp)
      as [[fs2 err] Hsave2].
    unfold FindEntry. rewrite (checkJsonEntry_hit _ _ _ _ _ He), Hsave2. simpl.
    rewrite (Hidx e eq_refl). eauto.
  - unfold FindEntry. rewrite checkJsonEntry_miss by done. simpl.
    rewrite (checkFsEntry_file c fs1 digest content now); [eauto|].
    eapply SaveEntry_entry_file, Hsave.
Qed.

(* ------------------------------------------------------------------- *)
(* Pruning: the clean-up of the directories                            *)
(* ------------------------------------------------------------------- *)

(* The function given to Walk returns an error only when it is handed one:
   a file that cannot be read or deleted is reported and skipped. *)
Lemma prune_visit_skips (path : Path) (info : FileInfo)
    (st : FS * Entries * list msg) :
  (prune_visit path info None st).2 = None.
Proof.
  destruct st as [[fs entries] log]. unfold prune_visit.
  destruct (IsDir info || bool_decide (Name info = ENTRIES_FILE)); [done|].
  destruct (ioutil_ReadFile fs path); [|done].
  by destruct (os_Remove fs path).
Qed.

Lemma remove_dirs_app (root : Path) (pre post : list FileInfo) (fs : FS)
    (log : list msg) :
  remove_dirs root (pre ++ post) fs log =
    match remove_dirs root pre fs log with
    | (fs', log', None) => remove_dirs root post fs' log'
    | r => r
    end.
Proof.
  revert fs log. induction pre as [|d pre IH]; intros fs log;
    cbn [remove_dirs app].
  { by destruct (remove_dirs root post fs log) as [[? ?] [?|]]. }
  destruct (negb (IsDir d)); [apply IH|].
  destruct (os_RemoveAll _ _) as [fs1 [err|]]; [done | apply IH].
Qed.

(** C9: when, in the clean-up of prune, the removal of a top-level
    directory of the cache root fails, Prune stops there and returns the
    error: the directories after it are not removed, nothing is evicted and
    the index file is not written.  (The function given to Walk never
    returns an error of its own: a file that cannot be read or deleted
    during the migration is reported and skipped.) *)
Theorem Prune_cleanup_failure_fatal (root : Path) (fs fs0 fs1 fsd fs2 : FS)
    (now : Time) (numWeeks : Z) (entries : Entries) (log1 : list msg)
    (pre post : list FileInfo) (d : FileInfo) (err : error) :
  os_MkdirAll fs root = Ok fs0 →
  prune_migrate root fs0 = (fs1, entries, log1, None) →
  os_ReadDir fs1 root = Ok (pre ++ d :: post) →
  remove_dirs root pre fs1 log1 = (fsd, log1, None) →
  d.(IsDir) = true →
  os_RemoveAll fsd (path_Join root [d.(Name)]) = (fs2, Some err) →
  Prune root fs now numWeeks = (fs2, log1 ++ [ErrorDeletingPath err], Some err)
  ∧ ∀ path info st, (prune_visit path info None st).2 = None.
Proof.
  intros Hmk Hmig Hdir Hpre Hd Hrm. split; [|apply prune_visit_skips].
  unfold Prune. rewrite Hmk, Hmig. unfold prune_cleanup. rewrite Hdir.
  rewrite remove_dirs_app, Hpre. cbn [remove_dirs]. by rewrite Hd, Hrm.
Qed.

(* ------------------------------------------------------------------- *)
(* Pruning: the walk                                                   *)
(* ------------------------------------------------------------------- *)

Lemma elem_of_walk_order (fs : FS) (root p : Path) (n : Node) :
  (p, n) ∈ walk_order fs root ↔ fs !! p = Some n ∧ root `prefix_of` p.
Proof.
  unfold walk_order. rewrite merge_sort_Permutation, elem_of_map_to_list.
  by rewrite map_lookup_filter_Some.
Qed.

Lemma NoDup_walk_order (fs : FS) (root : Path) : NoDup (walk_order fs root).*1.
Proof.
  unfold walk_order. rewrite merge_sort_Permutation. apply NoDup_fst_map_to_list.
Qed.

Lemma walk_nodes_app {St : Type}
    (fn : Path → FileInfo → option error → St → St * option error)
    (l1 l2 : list (Path * Node)) (st : St) :
  walk_nodes fn (l1 ++ l2) st =
    match walk_nodes fn l1 st with
    | (st', None) => walk_nodes fn l2 st'
    | r => r
    end.
Proof.
  revert st. induction l1 as [|[p n] l1 IH]; intros st; cbn [walk_nodes app].
  { by destruct (walk_nodes fn l2 st) as [? [?|]]. }
  destruct (fn p _ _ st) as [st' [e|]]; [done | apply IH].
Qed.

(* What the function given to Walk does at a node that is there. *)
Lemma prune_visit_eq (fs : FS) (p : Path) (n : Node) (entries : Entries)
    (log : list msg) :
  fs !! p = Some n →
  prune_visit p (info_of p n)
      (match n with Dir false _ => Some EACCES | _ => None end) (fs, entries, log) =
    match n with
    | Dir false _ => ((fs, entries, log), Some EACCES)
    | Dir true _ => ((fs, entries, log), None)
    | File d t rw =>
        if decide (filepath_Base p = ENTRIES_FILE) then ((fs, entries, log), None)
        else if rw then
          let entries' := <[digest_of p := mkEntry (go_string d) t]> entries in
          match parent_writable fs p with
          | Ok _ => ((delete p fs, entries', log), None)
          | Err e => ((fs, entries', log ++ [ErrorDeletingFile e]), None)
          end
        else ((fs, entries, log ++ [ErrorReadingFile EACCES]), None)
    end.
Proof.
  intros Hp. unfold prune_visit. destruct n as [d t rw|[|] w]; simpl; try done.
  case_decide as Hname.
  { by rewrite bool_decide_eq_true_2. }
  rewrite bool_decide_eq_false_2 by done.
  unfold ioutil_ReadFile, os_Remove. rewrite Hp.
  destruct rw; [|done]. by destruct (parent_writable fs p).
Qed.

Lemma parent_writable_delete (fs : FS) (p q : Path) :
  parent_writable (delete p fs) q = Ok tt → parent_writable fs q = Ok tt.
Proof.
  unfold parent_writable, dir_at. destruct (filepath_Dir q) as [|x xs]; [done|].
  destruct (decide (p = x :: xs)) as [->|Hne].
  - by rewrite lookup_delete_eq.
  - rewrite lookup_delete_ne by done. by destruct (fs !! (x :: xs)) as [[]|].
Qed.

Lemma parent_writable_delete_file (fs : FS) (p q : Path) (d : bytes) (t : Time)
    (rw : bool) :
  fs !! p = Some (File d t rw) →
  parent_writable fs q = Ok tt → parent_writable (delete p fs) q = Ok tt.
Proof.
  intros Hp. unfold parent_writable, dir_at.
  destruct (filepath_Dir q) as [|x xs]; [done|].
  destruct (decide (p = x :: xs)) as [->|Hne].
  - by rewrite Hp.
  - rewrite lookup_delete_ne by done. by destruct (fs !! (x :: xs)) as [[]|].
Qed.

Lemma walk_ok_cons (p : Path) (n : Node) (l : list (Path * Node)) (fs : FS) :
  walk_ok ((p, n) :: l) fs →
  fs !! p = Some n ∧ (p ∉ l.*1) ∧ walk_ok l fs ∧ walk_ok l (delete p fs).
Proof.
  intros [Hnd Hin]. apply NoDup_cons in Hnd as [Hp Hnd].
  split; [apply Hin; left|]. split; [done|].
  split; (split; [done|]); intros p' n' Hin'.
  - apply Hin. by right.
  - rewrite lookup_delete_ne; [apply Hin; by right|].
    intros ->. apply Hp. apply list_elem_of_fmap. by exists (p', n').
Qed.

(* The walk changes the file system by removing files only: readable
   files of the list, not called entries.json, in a directory that can be
   modified. *)
Lemma walk_nodes_fs (l : list (Path * Node)) (fs fs' : FS)
    (entries entries' : Entries) (log log' : list msg) (oerr : option error) :
  walk_ok l fs →
  walk_nodes prune_visit l (fs, entries, log) = ((fs', entries', log'), oerr) →
  ∀ q, fs' !! q = fs !! q
       ∨ (fs' !! q = None
          ∧ ∃ d t, (q, File d t true) ∈ l ∧ filepath_Base q ≠ ENTRIES_FILE
                   ∧ parent_writable fs q = Ok tt).
Proof.
  revert fs entries log. induction l as [|[p n] l IH]; intros fs entries log Hok.
  { intros [= <- _ _ _] q. by left. }
  destruct (walk_ok_cons _ _ _ _ Hok) as (Hp & Hnotin & Hok1 & Hok2).
  cbn [walk_nodes]. rewrite (prune_visit_eq _ _ _ _ _ Hp).
  assert (Hkeep : ∀ ent lg,
    walk_nodes prune_visit l (fs, ent, lg) = (fs', entries', log', oerr) →
    ∀ q, fs' !! q = fs !! q
         ∨ (fs' !! q = None
            ∧ ∃ d t, (q, File d t true) ∈ (p, n) :: l
                     ∧ filepath_Base q ≠ ENTRIES_FILE
                     ∧ parent_writable fs q = Ok tt)).
  { intros ent lg Hw q. destruct (IH _ _ _ Hok1 Hw q) as [?|(?&d&t&?&?&?)];
      [by left|]. right. split; [done|]. exists d, t. split; [by right | done]. }
  destruct n as [d t rw|[|] w]; [| by apply Hkeep | by (intros [= <- _ _ _] q; left)].
  case_decide as Hname; [by apply Hkeep|].
  destruct rw; [|by apply Hkeep].
  destruct (parent_writable fs p) as [[]|e] eqn:Hpw; cbn zeta; [|by apply Hkeep].
  intros Hw q. destruct (decide (q = p)) as [->|Hne].
  - right. destruct (IH _ _ _ Hok2 Hw p) as [Hq|[Hq _]];
      rewrite ?lookup_delete_eq in Hq; (split; [done|]);
      exists d, t; (split; [by left | done]).
  - destruct (IH _ _ _ Hok2 Hw q) as [Hq|(Hq&d'&t'&?&?&?)].
    + left. by rewrite Hq, lookup_delete_ne.
    + right. split; [done|]. exists d', t'. split; [by right|].
      split; [done|]. by eapply parent_writable_delete.
Qed.

(* Directories stay, and so does what cannot be read. *)
Lemma walk_nodes_keeps (l : list (Path * Node)) (fs fs' : FS)
    (entries entries' : Entries) (log log' : list msg) (oerr : option error)
    (q : Path) (n : Node) :
  walk_ok l fs →
  walk_nodes prune_visit l (fs, entries, log) = ((fs', entries', log'), oerr) →
  fs !! q = Some n →
  (∀ d t, n ≠ File d t true) →
  fs' !! q = Some n.
Proof.
  intros Hok Hw Hq Hn.
  destruct (walk_nodes_fs _ _ _ _ _ _ _ _ Hok Hw q) as [->|(_&d&t&Hin&_)]; [done|].
  destruct Hok as [_ Hin']. apply Hin' in Hin. rewrite Hq in Hin.
  injection Hin as ->. by destruct (Hn d t).
Qed.

Lemma walk_nodes_subseteq (l : list (Path * Node)) (fs fs' : FS)
    (entries entries' : Entries) (log log' : list msg) (oerr : option error) :
  walk_ok l fs →
  walk_nodes prune_visit l (fs, entries, log) = ((fs', entries', log'), oerr) →
  fs' ⊆ fs.
Proof.
  intros Hok Hw. apply map_subseteq_spec. intros q n Hq.
  destruct (walk_nodes_fs _ _ _ _ _ _ _ _ Hok Hw q) as [<-|[? _]]; congruence.
Qed.

Lemma walk_nodes_parent_writable (l : list (Path * Node)) (fs fs' : FS)
    (entries entries' : Entries) (log log' : list msg) (oerr : option error)
    (q : Path) :
  walk_ok l fs →
  walk_nodes prune_visit l (fs, entries, log) = ((fs', entries', log'), oerr) →
  parent_writable fs' q = Ok tt ↔ parent_writable fs q = Ok tt.
Proof.
  intros Hok Hw. unfold parent_writable, dir_at.
  destruct (filepath_Dir q) as [|x xs] eqn:Hd; [done|].
  destruct (walk_nodes_fs _ _ _ _ _ _ _ _ Hok Hw (x :: xs))
    as [->|(Hx&d&t&Hin&_)]; [by destruct (fs !! (x :: xs)) as [[]|]|].
  destruct Hok as [_ Hin']. apply Hin' in Hin. by rewrite Hx, Hin.
Qed.

(* A walk that comes to its end has removed the readable files whose
   directory can be modified. *)
Lemma walk_nodes_removes (l : list (Path * Node)) (fs fs' : FS)
    (entries entries' : Entries) (log log' : list msg)
    (q : Path) (d : bytes) (t : Time) :
  walk_ok l fs →
  walk_nodes prune_visit l (fs, entries, log) = ((fs', entries', log'), None) →
  (q, File d t true) ∈ l →
  filepath_Base q ≠ ENTRIES_FILE →
  parent_writable fs q = Ok tt →
  fs' !! q = None.
Proof.
  revert fs entries log. induction l as [|[p n] l IH];
    intros fs entries log Hok Hw Hin Hname Hpw.
  { by apply elem_of_nil in Hin. }
  destruct (walk_ok_cons _ _ _ _ Hok) as (Hp & Hnotin & Hok1 & Hok2).
  cbn [walk_nodes] in Hw. rewrite (prune_visit_eq _ _ _ _ _ Hp) in Hw.
  apply elem_of_cons in Hin as [[= <- <-]|Hin].
  - rewrite decide_False, Hpw in Hw by done. cbn zeta in Hw.
    destruct (walk_nodes_fs _ _ _ _ _ _ _ _ Hok2 Hw q) as [Hq|[Hq _]]; [|done].
    by rewrite Hq, lookup_delete_eq.
  - destruct n as [d' t' rw|[|] w]; [| by eapply (IH fs) | done].
    case_decide; [by eapply (IH fs)|].
    destruct rw; [|by eapply (IH fs)]. cbn zeta in Hw.
    destruct (parent_writable fs p) as [[]|e]; [|by eapply (IH fs)].
    eapply (IH (delete p fs)); [done.. |]. by eapply parent_writable_delete_file.
Qed.

(* A key that is the key of no file that is read keeps its entry. *)
Lemma walk_nodes_entries_other (l : list (Path * Node)) (fs fs' : FS)
    (entries entries' : Entries) (log log' : list msg) (oerr : option error)
    (k : string) :
  walk_ok l fs →
  walk_nodes prune_visit l (fs, entries, log) = ((fs', entries', log'), oerr) →
  (∀ p d t, (p, File d t true) ∈ l → filepath_Base p ≠ ENTRIES_FILE →
            digest_of p ≠ k) →
  entries' !! k = entries !! k.
Proof.
  revert fs entries log. induction l as [|[p n] l IH];
    intros fs entries log Hok Hw Hk.
  { by injection Hw as _ <- _ _. }
  destruct (walk_ok_cons _ _ _ _ Hok) as (Hp & Hnotin & Hok1 & Hok2).
  cbn [walk_nodes] in Hw. rewrite (prune_visit_eq _ _ _ _ _ Hp) in Hw.
  assert (Hk' : ∀ p d t, (p, File d t true) ∈ l →
                filepath_Base p ≠ ENTRIES_FILE → digest_of p ≠ k).
  { intros p' d' t' Hin. apply (Hk p' d' t'). by right. }
  destruct n as [d t rw|[|] w];
    [| by eapply (IH fs) | by injection Hw as _ <- _ _].
  case_decide as Hname; [by eapply (IH fs)|].
  destruct rw; [|by eapply (IH fs)]. cbn zeta in Hw.
  assert (Hne : digest_of p ≠ k) by (eapply (Hk p d t); [by left | done]).
  destruct (parent_writable fs p) as [[]|e].
  - erewrite (IH (delete p fs)); [by apply lookup_insert_ne | done..].
  - erewrite (IH fs); [by apply lookup_insert_ne | done..].
Qed.

(* A readable file whose key is the key of no other file that is read
   is in the entries at the end of the walk, with its bytes and its
   modification time. *)
Lemma walk_nodes_entries_hit (l : list (Path * Node)) (fs fs' : FS)
    (entries entries' : Entries) (log log' : list msg)
    (q : Path) (d : bytes) (t : Time) :
  walk_ok l fs →
  walk_nodes prune_visit l (fs, entries, log) = ((fs', entries', log'), None) →
  (q, File d t true) ∈ l →
  filepath_Base q ≠ ENTRIES_FILE →
  (∀ p' d' t', (p', File d' t' true) ∈ l → filepath_Base p' ≠ ENTRIES_FILE →
               digest_of p' = digest_of q → p' = q) →
  entries' !! digest_of q = Some (mkEntry (go_string d) t).
Proof.
  revert fs entries log. induction l as [|[p n] l IH];
    intros fs entries log Hok Hw Hin Hname Huniq.
  { by apply elem_of_nil in Hin. }
  destruct (walk_ok_cons _ _ _ _ Hok) as (Hp & Hnotin & Hok1 & Hok2).
  cbn [walk_nodes] in Hw. rewrite (prune_visit_eq _ _ _ _ _ Hp) in Hw.
  assert (Huniq' : ∀ p' d' t', (p', File d' t' true) ∈ l →
            filepath_Base p' ≠ ENTRIES_FILE → digest_of p' = digest_of q → p' = q).
  { intros p' d' t' Hin'. apply (Huniq p' d' t'). by right. }
  apply elem_of_cons in Hin as [[= <- <-]|Hin].
  - rewrite decide_False in Hw by done. cbn zeta in Hw.
    assert (Hrest : ∀ p' d' t', (p', File d' t' true) ∈ l →
              filepath_Base p' ≠ ENTRIES_FILE → digest_of p' ≠ digest_of q).
    { intros p' d' t' Hin' Hn' Heq. apply Hnotin.
      rewrite <- (Huniq' p' d' t' Hin' Hn' Heq).
      apply list_elem_of_fmap. by exists (p', File d' t' true). }
    destruct (parent_writable fs q) as [[]|e].
    + erewrite (walk_nodes_entries_other l (delete q fs)); [|done..].
      apply lookup_insert_eq.
    + erewrite (walk_nodes_entries_other l fs); [|done..].
      apply lookup_insert_eq.
  - destruct n as [d' t' rw|[|] w]; [| by eapply (IH fs) | done].
    case_decide; [by eapply (IH fs)|].
    destruct rw; [|by eapply (IH fs)]. cbn zeta in Hw.
    destruct (parent_writable fs p) as [[]|e];
      [by eapply (IH (delete p fs)) | by eapply (IH fs)].
Qed.


(* ------------------------------------------------------------------- *)
(* Pruning: removing the directories                                   *)
(* ------------------------------------------------------------------- *)

Lemma prefix_of_Dir (d p : Path) :
  d `prefix_of` p → d ≠ p → d `prefix_of` filepath_Dir p.
Proof.
  intros [k ->] Hne. destruct (exists_last (l := k)) as (k' & x & ->).
  { intros ->. by rewrite app_nil_r in Hne. }
  unfold filepath_Dir. rewrite app_assoc, removelast_last. by apply prefix_app_r.
Qed.

(* In a well-formed file system the directories on the way to a node are
   there. *)
Lemma fs_wf_ancestor (fs : FS) (d p : Path) (n : Node) :
  fs_wf fs → fs !! p = Some n → d `prefix_of` p → d ≠ [] → is_Some (fs !! d).
Proof.
  intros Hwf. revert n. induction p as [|x k IH] using rev_ind; intros n Hp Hd Hne.
  { by apply prefix_nil_inv in Hd. }
  destruct (decide (d = k ++ [x])) as [->|Hdp]; [eauto|].
  pose proof (prefix_of_Dir _ _ Hd Hdp) as Hd'.
  unfold filepath_Dir in Hd'. rewrite removelast_last in Hd'.
  destruct (Hwf (k ++ [x]) n Hp) as (_ & [Hparent|(r & w & Hparent)]);
    [by destruct k| |]; unfold filepath_Dir in Hparent;
    rewrite removelast_last in Hparent.
  - subst k. by apply prefix_nil_inv in Hd'.
  - by eapply IH.
Qed.

Lemma goes_mono (fs : FS) (d q : Path) : d `prefix_of` q → goes fs d → goes fs q.
Proof.
  intros Hdq Hd q' n' Hq' Hpre. eapply Hd; [done|]. by etrans.
Qed.

Lemma os_RemoveAll_subseteq (fs fs' : FS) (d : Path) (oerr : option error) :
  os_RemoveAll fs d = (fs', oerr) → fs' ⊆ fs.
Proof. intros [= <- _]. apply map_filter_subseteq. Qed.

Lemma os_RemoveAll_other (fs fs' : FS) (d q : Path) (oerr : option error) :
  os_RemoveAll fs d = (fs', oerr) → ¬ d `prefix_of` q → fs' !! q = fs !! q.
Proof.
  intros [= <- _] Hq. destruct (fs !! q) as [n|] eqn:Hn.
  - apply map_lookup_filter_Some. split; [done|]. simpl. tauto.
  - apply map_lookup_filter_None. by left.
Qed.

(* When RemoveAll reports no error, nothing is left at or below the path. *)
Lemma os_RemoveAll_removes (fs fs' : FS) (d q : Path) :
  fs_wf fs → d ≠ [] →
  os_RemoveAll fs d = (fs', None) → d `prefix_of` q → fs' !! q = None.
Proof.
  intros Hwf Hd0 Hrm Hq. injection Hrm as <- Herr.
  destruct (filter _ fs !! d) as [n|] eqn:Hd; [done|]. clear Herr.
  apply map_lookup_filter_None in Hd as [Hd|Hd].
  - destruct (fs !! q) as [n|] eqn:Hn.
    + destruct (fs_wf_ancestor fs d q n Hwf Hn Hq Hd0) as [? ?]. congruence.
    + apply map_lookup_filter_None. by left.
  - apply map_lookup_filter_None.
    destruct (fs !! d) as [nd|] eqn:Hnd.
    + right. intros n Hn. simpl. intros Hnot. apply Hnot. split; [done|].
      eapply goes_mono; [done|]. destruct (decide (goes fs d)) as [?|Hng]; [done|].
      exfalso. apply (Hd nd eq_refl). simpl. tauto.
    + destruct (fs !! q) as [n|] eqn:Hn; [|by left].
      destruct (fs_wf_ancestor fs d q n Hwf Hn Hq Hd0) as [? ?]. congruence.
Qed.

Lemma os_RemoveAll_wf (fs fs' : FS) (d : Path) :
  fs_wf fs → d ≠ [] → os_RemoveAll fs d = (fs', None) → fs_wf fs'.
Proof.
  intros Hwf Hd0 Hrm p n Hp Hp0.
  pose proof (os_RemoveAll_subseteq _ _ _ _ Hrm) as Hsub.
  assert (Hp' : fs !! p = Some n) by (eapply lookup_weaken; done).
  destruct (Hwf p n Hp' Hp0) as (Hname & [Hparent|(r & w & Hparent)]);
    (split; [done|]); [by left|]. right. exists r, w.
  rewrite (os_RemoveAll_other _ _ _ _ _ Hrm); [done|].
  intros Hpre. assert (Hdp : d `prefix_of` p).
  { etrans; [done|]. unfold filepath_Dir.
    destruct (exists_last Hp0) as (k & x & ->). rewrite removelast_last.
    by apply prefix_app_r. }
  rewrite (os_RemoveAll_removes _ _ _ _ Hwf Hd0 Hrm Hdp) in Hp. done.
Qed.

Lemma path_Join_name (root : Path) (name : string) :
  name ≠ "" → path_Join root [name] = root ++ [name].
Proof. intros H. unfold path_Join. by rewrite filter_cons_True, filter_nil. Qed.

(* A clean-up loop that comes to its end leaves a well-formed file system
   in which the directories of the list are gone with what they held, and
   the rest is as it was. *)
Lemma remove_dirs_spec (root : Path) (paths : list FileInfo) (fs fs' : FS)
    (log log' : list msg) :
  fs_wf fs →
  (∀ i, i ∈ paths → i.(Name) ≠ "") →
  remove_dirs root paths fs log = (fs', log', None) →
  fs_wf fs' ∧ fs' ⊆ fs ∧ log' = log
  ∧ (∀ q, (∀ i, i ∈ paths → i.(IsDir) = true →
               ¬ (root ++ [i.(Name)]) `prefix_of` q) → fs' !! q = fs !! q)
  ∧ (∀ i q, i ∈ paths → i.(IsDir) = true →
            (root ++ [i.(Name)]) `prefix_of` q → fs' !! q = None).
Proof.
  revert fs log. induction paths as [|d paths IH]; intros fs log Hwf Hnames Hrm.
  { injection Hrm as <- <-. split_and!; [done..| |].
    - done.
    - intros i q Hi. by apply elem_of_nil in Hi. }
  assert (Hnames' : ∀ i, i ∈ paths → Name i ≠ "") by (intros i Hi; apply Hnames; by right).
  cbn [remove_dirs] in Hrm. destruct (IsDir d) eqn:Hd; cbn [negb] in Hrm.
  - rewrite path_Join_name in Hrm by (apply Hnames; by left).
    destruct (os_RemoveAll fs (root ++ [Name d])) as [fs1 [e|]] eqn:H1; [done|].
    assert (Hd0 : root ++ [Name d] ≠ []) by (by destruct root).
    pose proof (os_RemoveAll_wf _ _ _ Hwf Hd0 H1) as Hwf1.
    destruct (IH _ _ Hwf1 Hnames' Hrm) as (Hwf' & Hsub & Hlog & Hother & Hgone).
    split_and!; [done| |done| |].
    + etrans; [done|]. by eapply os_RemoveAll_subseteq.
    + intros q Hq. rewrite Hother.
      * eapply os_RemoveAll_other; [done|]. apply Hq; [by left | done].
      * intros i Hi. apply Hq. by right.
    + intros i q [->|Hi]%elem_of_cons Hdir Hpre; [|by eapply Hgone].
      eapply lookup_weaken_None; [|done].
      by eapply (os_RemoveAll_removes fs fs1 (root ++ [Name d])).
  - destruct (IH _ _ Hwf Hnames' Hrm) as (Hwf' & Hsub & Hlog & Hother & Hgone).
    split_and!; [done..| |].
    + intros q Hq. apply Hother. intros i Hi. apply Hq. by right.
    + intros i q [->|Hi]%elem_of_cons Hdir Hpre; [congruence | by eapply Hgone].
Qed.

(* In a well-formed file system nothing is below a regular file. *)
Lemma fs_wf_file_leaf (fs : FS) (c q : Path) (d : bytes) (t : Time) (rw : bool) :
  fs_wf fs → c ≠ [] → fs !! c = Some (File d t rw) → c `prefix_of` q → q ≠ c →
  fs !! q = None.
Proof.
  intros Hwf Hc0 Hc. induction q as [|y k IH] using rev_ind; intros Hpre Hne.
  { apply prefix_nil_inv in Hpre. congruence. }
  destruct (fs !! (k ++ [y])) as [n|] eqn:Hq; [|done]. exfalso.
  pose proof (prefix_of_Dir _ _ Hpre (not_eq_sym Hne)) as Hpre'.
  unfold filepath_Dir in Hpre'. rewrite removelast_last in Hpre'.
  destruct (Hwf _ _ Hq) as (_ & [Hparent|(r & w & Hparent)]);
    [by destruct k| |]; unfold filepath_Dir in Hparent;
    rewrite removelast_last in Hparent.
  - subst k. by apply prefix_nil_inv in Hpre'.
  - destruct (decide (k = c)) as [->|Hkc]; [congruence|].
    rewrite IH in Hparent; done.
Qed.

Lemma is_child_path (root p : Path) :
  is_child root p → p = root ++ [filepath_Base p].
Proof.
  intros [Hp <-]. unfold filepath_Dir, filepath_Base.
  by apply app_removelast_last.
Qed.

Lemma is_child_app (root : Path) (x : string) : is_child root (root ++ [x]).
Proof.
  split; [by destruct root|]. unfold filepath_Dir. by rewrite removelast_last.
Qed.

Lemma Name_info_of (p : Path) (n : Node) : (info_of p n).(Name) = filepath_Base p.
Proof. by destruct n. Qed.

Lemma IsDir_info_of (p : Path) (n : Node) :
  (info_of p n).(IsDir) = true ↔ ∃ r w, n = Dir r w.
Proof. destruct n; simpl; split; [done | by intros (?&?&?) | eauto | done]. Qed.

(* os.ReadDir lists the nodes that are in the directory. *)
Lemma os_ReadDir_elem (fs : FS) (dir : Path) (paths : list FileInfo) (i : FileInfo) :
  os_ReadDir fs dir = Ok paths →
  i ∈ paths ↔ ∃ p n, fs !! p = Some n ∧ is_child dir p ∧ i = info_of p n.
Proof.
  unfold os_ReadDir. destruct (dir_at fs dir) as [[[|] w]|]; [|done..].
  intros [= <-]. rewrite list_elem_of_fmap. split.
  - intros ([p n] & -> & Hin). exists p, n.
    rewrite merge_sort_Permutation, elem_of_map_to_list in Hin.
    apply map_lookup_filter_Some in Hin as [? ?]. done.
  - intros (p & n & Hp & Hc & ->). exists (p, n). split; [done|].
    rewrite merge_sort_Permutation, elem_of_map_to_list.
    by apply map_lookup_filter_Some.
Qed.

Lemma prefix_of_child (root q : Path) :
  root `prefix_of` q → q ≠ root →
  ∃ x, (root ++ [x]) `prefix_of` q ∧ (q ≠ root ++ [x] → ¬ is_child root q).
Proof.
  intros [k ->] Hne. destruct k as [|x k]; [by rewrite app_nil_r in Hne|].
  exists x. split; [exists k; by rewrite <- app_assoc|].
  intros Hq [_ Hc]. apply Hq. unfold filepath_Dir in Hc.
  destruct (exists_last (l := x :: k)) as (k' & y & Hk); [done|].
  rewrite Hk, app_assoc, removelast_last in Hc.
  rewrite <- (app_nil_r root) in Hc at 2. apply app_inv_head in Hc as ->.
  simpl in Hk. injection Hk as -> ->. done.
Qed.

(* A clean-up that comes to its end: below the root only regular files
   that sit in the root itself are left. *)
Lemma prune_cleanup_spec (root : Path) (fs fs' : FS) (log log' : list msg) :
  fs_wf fs →
  prune_cleanup root fs log = (fs', log', None) →
  fs_wf fs' ∧ fs' ⊆ fs ∧ log' = log
  ∧ (∀ q, ¬ (root `prefix_of` q ∧ q ≠ root) → fs' !! q = fs !! q)
  ∧ (∀ q d t rw, is_child root q → fs !! q = Some (File d t rw) →
                 fs' !! q = Some (File d t rw))
  ∧ (∀ q n, fs' !! q = Some n → root `prefix_of` q → q ≠ root →
            is_child root q ∧ ∃ d t rw, n = File d t rw).
Proof.
  intros Hwf. unfold prune_cleanup.
  destruct (os_ReadDir fs root) as [paths|e] eqn:Hdir; [|done]. intros Hrm.
  assert (Hnames : ∀ i, i ∈ paths → Name i ≠ "").
  { intros i (p & n & Hp & [Hp0 _] & ->)%(os_ReadDir_elem _ _ _ _ Hdir).
    rewrite Name_info_of. by destruct (Hwf p n Hp Hp0). }
  destruct (remove_dirs_spec _ _ _ _ _ _ Hwf Hnames Hrm)
    as (Hwf' & Hsub & Hlog & Hother & Hgone).
  split_and!; [done..| | |].
  - intros q Hq. apply Hother. intros i _ _ Hpre. apply Hq. split.
    + etrans; [|done]. by apply prefix_app_r.
    + intros ->. apply prefix_length in Hpre. rewrite length_app in Hpre.
      simpl in Hpre. lia.
  - intros q d t rw Hc Hq. rewrite Hother; [done|].
    intros i (p & n & Hp & Hcp & ->)%(os_ReadDir_elem _ _ _ _ Hdir)
      (r & w & ->)%IsDir_info_of Hpre.
    rewrite Name_info_of, <- (is_child_path _ _ Hcp) in Hpre.
    assert (p = q) as ->; [|congruence].
    apply prefix_length_eq; [done|].
    rewrite (is_child_path _ _ Hc), (is_child_path _ _ Hcp), !length_app.
    simpl. lia.
  - intros q n Hq Hpre Hne.
    destruct (prefix_of_child _ _ Hpre Hne) as (x & Hx & Hnc).
    destruct (fs_wf_ancestor fs' (root ++ [x]) q n Hwf' Hq Hx) as [nc Hc];
      [by destruct root|].
    assert (Hc' : fs !! (root ++ [x]) = Some nc) by (eapply lookup_weaken; done).
    assert (Hin : info_of (root ++ [x]) nc ∈ paths).
    { apply (os_ReadDir_elem _ _ _ _ Hdir). exists (root ++ [x]), nc.
      split_and!; [done | apply is_child_app | done]. }
    destruct nc as [d t rw|r w].
    + destruct (decide (q = root ++ [x])) as [->|Hqx].
      * split; [apply is_child_app|]. exists d, t, rw. congruence.
      * rewrite (fs_wf_file_leaf fs' (root ++ [x]) q d t rw Hwf') in Hq;
          [done | by destruct root | done..].
    + rewrite (Hgone _ q Hin) in Hq; [done|done|].
      rewrite Name_info_of. unfold filepath_Base. by rewrite last_last.
Qed.

(* ------------------------------------------------------------------- *)
(* Pruning: well-formedness along the pass                             *)
(* ------------------------------------------------------------------- *)

Lemma fs_wf_insert (fs : FS) (p : Path) (n : Node) :
  fs_wf fs → filepath_Base p ≠ "" →
  (filepath_Dir p = [] ∨ ∃ r w, fs !! filepath_Dir p = Some (Dir r w)) →
  (∀ r w, fs !! p = Some (Dir r w) → ∃ r' w', n = Dir r' w') →
  filepath_Dir p ≠ p →
  fs_wf (<[p := n]> fs).
Proof.
  intros Hwf Hname Hparent Hdir Hpp q nq Hq Hq0.
  assert (Hkeep : ∀ k r w, fs !! k = Some (Dir r w) →
                  ∃ r' w', <[p := n]> fs !! k = Some (Dir r' w')).
  { intros k r w Hk. destruct (decide (p = k)) as [->|Hne].
    - rewrite lookup_insert_eq. destruct (Hdir r w Hk) as (r' & w' & ->). eauto.
    - rewrite lookup_insert_ne by done. eauto. }
  destruct (decide (p = q)) as [->|Hne].
  - split; [done|]. destruct Hparent as [?|(r & w & Hk)]; [by left|].
    right. by eapply Hkeep.
  - rewrite lookup_insert_ne in Hq by done.
    destruct (Hwf q nq Hq Hq0) as [? [?|(r & w & Hk)]]; (split; [done|]);
      [by left|]. right. by eapply Hkeep.
Qed.

Lemma dir_at_parent (fs : FS) (p : Path) :
  parent_writable fs p = Ok tt →
  filepath_Dir p = [] ∨ ∃ r w, fs !! filepath_Dir p = Some (Dir r w).
Proof.
  unfold parent_writable, dir_at. destruct (filepath_Dir p) as [|x xs]; [by left|].
  destruct (fs !! (x :: xs)) as [[? ? ?|r w]|]; [done| |done]. right. eauto.
Qed.

Lemma mkdir_from_wf (fs fs' : FS) (dir : Path) (names : list string) :
  fs_wf fs → "" ∉ names → mkdir_from fs dir names = Ok fs' → fs_wf fs'.
Proof.
  revert fs dir. induction names as [|x names IH]; intros fs dir Hwf Hnames H;
    simpl in H.
  { by injection H as <-. }
  apply not_elem_of_cons in Hnames as [Hx Hnames].
  destruct (fs !! (dir ++ [x])) as [[? ? ?|? ?]|] eqn:Hp; [done|by eapply IH|].
  unfold os_Mkdir in H. rewrite Hp in H.
  destruct (parent_writable fs (dir ++ [x])) as [[]|e] eqn:Hpw; [|done].
  eapply IH; [|done..]. apply fs_wf_insert; [done| | | |].
  - unfold filepath_Base. by rewrite last_last.
  - by apply dir_at_parent.
  - intros r w. congruence.
  - unfold filepath_Dir. rewrite removelast_last. intros Heq.
    apply (f_equal length) in Heq. rewrite length_app in Heq. simpl in Heq. lia.
Qed.

Lemma walk_nodes_wf (l : list (Path * Node)) (fs fs' : FS)
    (entries entries' : Entries) (log log' : list msg) (oerr : option error) :
  walk_ok l fs → fs_wf fs →
  walk_nodes prune_visit l (fs, entries, log) = ((fs', entries', log'), oerr) →
  fs_wf fs'.
Proof.
  intros Hok Hwf Hw q n Hq Hq0.
  pose proof (walk_nodes_subseteq _ _ _ _ _ _ _ _ Hok Hw) as Hsub.
  destruct (Hwf q n (lookup_weaken _ _ _ _ Hq Hsub) Hq0)
    as [? [?|(r & w & Hk)]]; (split; [done|]); [by left|].
  right. exists r, w. by eapply walk_nodes_keeps.
Qed.

(* The walk of prune, when the root is there. *)
Lemma prune_migrate_walk (root : Path) (fs : FS) :
  is_Some (fs !! root) →
  prune_migrate root fs =
    walk_nodes prune_visit (walk_order fs root)
      (fs, index root fs, (readJson fs (path_Join root [ENTRIES_FILE])).2).
Proof.
  intros [n Hn]. unfold prune_migrate, index, filepath_Walk, os_Stat.
  rewrite Hn. by destruct (readJson fs _).
Qed.

Lemma walk_ok_walk_order (fs : FS) (root : Path) : walk_ok (walk_order fs root) fs.
Proof.
  split; [apply NoDup_walk_order|]. intros p n Hin.
  by apply elem_of_walk_order in Hin as [? _].
Qed.

Lemma mkdir_from_creates (fs fs' : FS) (dir : Path) (names : list string) :
  mkdir_from fs dir names = Ok fs' → names ≠ [] →
  ∃ r w, fs' !! (dir ++ names) = Some (Dir r w).
Proof.
  revert fs dir. induction names as [|x names IH]; intros fs dir H Hne; [done|].
  simpl in H.
  assert (Hstep : ∀ fs1 r w, fs1 !! (dir ++ [x]) = Some (Dir r w) →
            mkdir_from fs1 (dir ++ [x]) names = Ok fs' →
            ∃ r w, fs' !! (dir ++ x :: names) = Some (Dir r w)).
  { intros fs1 r w H1 Hrest. destruct names as [|y names].
    - injection Hrest as <-. eauto.
    - rewrite (cons_middle x), app_assoc. by eapply IH. }
  destruct (fs !! (dir ++ [x])) as [[? ? ?|r w]|] eqn:Hp; [done|by eapply Hstep|].
  unfold os_Mkdir in H. rewrite Hp in H.
  destruct (parent_writable fs (dir ++ [x])); [|done].
  eapply Hstep; [|done]. apply lookup_insert_eq.
Qed.

Lemma ioutil_WriteFile_eq (fs fs' : FS) (now : Time) (p : Path) (b : bytes) :
  ioutil_WriteFile fs now p b = Ok fs' → fs' = <[p := File b now true]> fs.
Proof.
  unfold ioutil_WriteFile. destruct (os_Create fs now p) as [fs1|e] eqn:Hc; [|done].
  apply os_Create_lookup in Hc as ->. unfold file_Write. intros [= <-].
  apply insert_insert_eq.
Qed.

(* The steps of a pass that comes to its end. *)
Lemma Prune_success_inv (root : Path) (fs fs' : FS) (now : Time) (numWeeks : Z)
    (log : list msg) :
  Prune root fs now numWeeks = (fs', log, None) →
  ∃ fs0 fs1 fs2 entries log1 log2 jsonData,
    os_MkdirAll fs root = Ok fs0
    ∧ prune_migrate root fs0 = (fs1, entries, log1, None)
    ∧ prune_cleanup root fs1 log1 = (fs2, log2, None)
    ∧ json_MarshalIndent (prune_evict now (retention numWeeks) entries)
        = Ok jsonData
    ∧ fs' = <[path_Join root [ENTRIES_FILE] := File jsonData now true]> fs2.
Proof.
  unfold Prune. destruct (os_MkdirAll fs root) as [fs0|e0] eqn:H0; [|done].
  destruct (prune_migrate root fs0) as [[[fs1 entries] log1] [e1|]] eqn:H1; [done|].
  destruct (prune_cleanup root fs1 log1) as [[fs2 log2] [e2|]] eqn:H2; [done|].
  cbn zeta.
  destruct (json_MarshalIndent _) as [jsonData|e3] eqn:H3; [|done].
  destruct (ioutil_WriteFile fs2 now _ jsonData) as [fs3|e4] eqn:H4; [|done].
  intros [= <- _]. apply ioutil_WriteFile_eq in H4.
  by exists fs0, fs1, fs2, entries, log1, log2, jsonData.
Qed.

Lemma parent_writable_weaken (fs fs' : FS) (q : Path) :
  fs ⊆ fs' → parent_writable fs q = Ok tt → parent_writable fs' q = Ok tt.
Proof.
  intros Hsub. unfold parent_writable, dir_at.
  destruct (filepath_Dir q) as [|x xs]; [done|].
  destruct (fs !! (x :: xs)) as [n|] eqn:Hn; [|done].
  by rewrite (lookup_weaken _ _ _ _ Hn Hsub).
Qed.

(* The states of a pass that comes to its end, from a well-formed file
   system: after MkdirAll, after the walk and after the clean-up. *)
Lemma Prune_states (root : Path) (fs fs' : FS) (now : Time) (numWeeks : Z)
    (log : list msg) :
  fs_wf fs → "" ∉ root → root ≠ [] →
  Prune root fs now numWeeks = (fs', log, None) →
  ∃ fs0 fs1 fs2 entries log1 jsonData,
    os_MkdirAll fs root = Ok fs0 ∧ fs_wf fs0 ∧ fs ⊆ fs0
    ∧ (∃ r w, fs0 !! root = Some (Dir r w))
    ∧ walk_nodes prune_visit (walk_order fs0 root)
        (fs0, index root fs0, (readJson fs0 (path_Join root [ENTRIES_FILE])).2)
        = (fs1, entries, log1, None)
    ∧ fs_wf fs1
    ∧ prune_cleanup root fs1 log1 = (fs2, log1, None)
    ∧ json_MarshalIndent (prune_evict now (retention numWeeks) entries)
        = Ok jsonData
    ∧ fs' = <[path_Join root [ENTRIES_FILE] := File jsonData now true]> fs2.
Proof.
  intros Hwf Hroot Hroot0 HP.
  destruct (Prune_success_inv _ _ _ _ _ _ HP)
    as (fs0 & fs1 & fs2 & entries & log1 & log2 & jsonData
        & H0 & H1 & H2 & H3 & ->).
  pose proof (mkdir_from_wf _ _ _ _ Hwf Hroot H0) as Hwf0.
  destruct (mkdir_from_creates _ _ _ _ H0 Hroot0) as (r & w & Hr).
  simpl in Hr. rewrite prune_migrate_walk in H1 by eauto.
  pose proof (walk_nodes_wf _ _ _ _ _ _ _ _ (walk_ok_walk_order _ _) Hwf0 H1)
    as Hwf1.
  destruct (prune_cleanup_spec _ _ _ _ _ Hwf1 H2) as (_ & _ & -> & _).
  exists fs0, fs1, fs2, entries, log1, jsonData.
  split_and!; try done; [by eapply os_MkdirAll_subseteq | eauto].
Qed.

(** C10 (as amended): after a prune pass that comes to its end, on a
    well-formed file system, the only nodes left below the cache root are
    regular files that sit in the root itself: the index file, and files
    that were there before and could not be read or could not be removed.
    Every top-level directory is gone with all it held, also the entry
    files that the migration skipped because they could not be read. *)
Theorem Prune_leaves_root_files (root : Path) (fs fs' : FS) (now : Time)
    (numWeeks : Z) (log : list msg) :
  fs_wf fs → "" ∉ root → root ≠ [] →
  Prune root fs now numWeeks = (fs', log, None) →
  (∀ q n, fs' !! q = Some n → root `prefix_of` q → q ≠ root →
     is_child root q
     ∧ ∃ d t rw, n = File d t rw
         ∧ (q = path_Join root [ENTRIES_FILE]
            ∨ (fs !! q = Some n ∧ (rw = false ∨ parent_writable fs q ≠ Ok tt))))
  ∧ (∀ q, root `prefix_of` q → q ≠ root → ¬ is_child root q → fs' !! q = None).
Proof.
  intros Hwf Hroot Hroot0 HP.
  destruct (Prune_states _ _ _ _ _ _ Hwf Hroot Hroot0 HP)
    as (fs0 & fs1 & fs2 & entries & log1 & jsonData
        & H0 & Hwf0 & Hsub0 & _ & Hwalk & Hwf1 & Hclean & _ & ->).
  pose proof (walk_ok_walk_order fs0 root) as Hok.
  destruct (prune_cleanup_spec _ _ _ _ _ Hwf1 Hclean)
    as (_ & Hsub2 & _ & _ & _ & Hleft).
  rewrite path_Join_name by done.
  assert (Hfirst : ∀ q n,
    <[root ++ [ENTRIES_FILE] := File jsonData now true]> fs2 !! q = Some n →
    root `prefix_of` q → q ≠ root →
    is_child root q
    ∧ ∃ d t rw, n = File d t rw
        ∧ (q = root ++ [ENTRIES_FILE]
           ∨ (fs !! q = Some n ∧ (rw = false ∨ parent_writable fs q ≠ Ok tt)))).
  { intros q n Hq Hpre Hne.
    destruct (decide (q = root ++ [ENTRIES_FILE])) as [->|Hidx].
    { rewrite lookup_insert_eq in Hq. injection Hq as <-.
      split; [apply is_child_app|]. eexists _, _, _. split; [done | by left]. }
    rewrite lookup_insert_ne in Hq by done.
    destruct (Hleft q n Hq Hpre Hne) as (Hchild & d & t & rw & ->).
    split; [done|]. exists d, t, rw. split; [done|]. right.
    assert (Hq1 : fs1 !! q = Some (File d t rw)) by (eapply lookup_weaken; done).
    assert (Hq0 : fs0 !! q = Some (File d t rw)).
    { eapply lookup_weaken; [done|]. by eapply walk_nodes_subseteq. }
    assert (Hqf : fs !! q = Some (File d t rw)).
    { destruct (mkdir_from_lookup _ _ _ _ H0 q) as [<-|(_ & Hd & _)]; congruence. }
    split; [done|]. destruct rw; [|by left]. right. intros Hpw.
    assert (Hname : filepath_Base q ≠ ENTRIES_FILE).
    { intros Hn. apply Hidx. rewrite (is_child_path _ _ Hchild). by rewrite Hn. }
    rewrite (walk_nodes_removes _ _ _ _ _ _ _ q d t Hok Hwalk) in Hq1;
      [done | by apply elem_of_walk_order | done |].
    by eapply parent_writable_weaken. }
  split; [done|]. intros q Hpre Hne Hnc.
  match goal with |- ?m !! q = None => destruct (m !! q) as [n|] eqn:Hq end;
    [|done].
  by destruct (Hfirst q n Hq Hpre Hne) as [? _].
Qed.

(* ------------------------------------------------------------------- *)
(* Pruning: migration                                                  *)
(* ------------------------------------------------------------------- *)

Lemma digest_of_entry (root : Path) (a b c : string) :
  digest_of (root ++ [a; b; c]) = a +:+ b +:+ c.
Proof.
  unfold digest_of, filepath_Base, filepath_Dir.
  replace (root ++ [a; b; c]) with ((root ++ [a; b]) ++ [c])
    by (by rewrite <- app_assoc).
  rewrite removelast_last, last_last.
  replace (root ++ [a; b]) with ((root ++ [a]) ++ [b])
    by (by rewrite <- app_assoc).
  by rewrite removelast_last, !last_last.
Qed.

Lemma Prune_index_eq (root : Path) (fs fs0 fs1 : FS) (now : Time) (numWeeks : Z)
    (entries : Entries) (log1 : list msg) :
  os_MkdirAll fs root = Ok fs0 →
  is_Some (fs0 !! root) →
  walk_nodes prune_visit (walk_order fs0 root)
    (fs0, index root fs0, (readJson fs0 (path_Join root [ENTRIES_FILE])).2)
    = (fs1, entries, log1, None) →
  Prune_index root fs now numWeeks
    = Some (prune_evict now (retention numWeeks) entries).
Proof.
  intros H0 Hr Hw. unfold Prune_index.
  by rewrite H0, prune_migrate_walk, Hw by done.
Qed.

Lemma Base_entry (root : Path) (a b c : string) :
  filepath_Base (root ++ [a; b; c]) = c.
Proof.
  unfold filepath_Base.
  replace (root ++ [a; b; c]) with ((root ++ [a; b]) ++ [c])
    by (by rewrite <- app_assoc).
  apply last_last.
Qed.

(* A readable entry file whose key is the key of no other file that is
   read, and whose modification time is within the window, is in the
   entries that the pass writes. *)
Lemma Prune_migrates (root : Path) (fs fs' : FS) (now : Time) (numWeeks : Z)
    (log : list msg) (a b c : string) (d : bytes) (t : Time) :
  fs_wf fs → "" ∉ root → root ≠ [] →
  Prune root fs now numWeeks = (fs', log, None) →
  fs !! (root ++ [a; b; c]) = Some (File d t true) →
  c ≠ ENTRIES_FILE →
  (∀ p' d' t', fs !! p' = Some (File d' t' true) → root `prefix_of` p' →
               filepath_Base p' ≠ ENTRIES_FILE →
               digest_of p' = a +:+ b +:+ c → p' = root ++ [a; b; c]) →
  time_Sub now t ≤ retention numWeeks →
  ∃ pruned jsonData,
    Prune_index root fs now numWeeks = Some pruned
    ∧ json_MarshalIndent pruned = Ok jsonData
    ∧ fs' !! path_Join root [ENTRIES_FILE] = Some (File jsonData now true)
    ∧ pruned !! (a +:+ b +:+ c) = Some (mkEntry (go_string d) t).
Proof.
  intros Hwf Hroot Hroot0 HP Hfile Hc Huniq Hage.
  destruct (Prune_states _ _ _ _ _ _ Hwf Hroot Hroot0 HP)
    as (fs0 & fs1 & fs2 & entries & log1 & jsonData
        & H0 & Hwf0 & Hsub0 & (r & w & Hr) & Hwalk & Hwf1 & Hclean & Hjson & ->).
  pose proof (walk_ok_walk_order fs0 root) as Hok.
  exists (prune_evict now (retention numWeeks) entries), jsonData.
  split; [eapply Prune_index_eq; eauto|]. split; [done|].
  split; [apply lookup_insert_eq|].
  apply map_lookup_filter_Some. split; [|done].
  rewrite <- (digest_of_entry root).
  eapply (walk_nodes_entries_hit _ _ _ _ _ _ _ _ d t Hok Hwalk).
  - apply elem_of_walk_order. split; [by eapply lookup_weaken|].
    by apply prefix_app_r.
  - by rewrite Base_entry.
  - intros p' d' t' [Hp' Hpre]%elem_of_walk_order Hname Hdig.
    rewrite digest_of_entry in Hdig. eapply Huniq; [|done..].
    destruct (mkdir_from_lookup _ _ _ _ H0 p') as [Heq|(_ & Hnew & _)].
    + by rewrite <- Heq.
    + rewrite Hnew in Hp'. discriminate Hp'.
Qed.

(* ------------------------------------------------------------------- *)
(* Pruning: a second pass                                              *)
(* ------------------------------------------------------------------- *)


Lemma mkdir_from_existing (fs : FS) (dir : Path) (names : list string) :
  (∀ k, (0 < k ≤ length names)%nat →
        ∃ r w, fs !! (dir ++ take k names) = Some (Dir r w)) →
  mkdir_from fs dir names = Ok fs.
Proof.
  revert dir. induction names as [|x names IH]; intros dir Hall; [done|].
  simpl. destruct (Hall 1%nat) as (r & w & H1); [simpl; lia|].
  simpl in H1. rewrite take_0 in H1. rewrite H1. apply IH.
  intros k Hk. destruct (Hall (S k)) as (r' & w' & HS); [simpl; lia|].
  simpl in HS. rewrite <- app_assoc. eauto.
Qed.



Lemma remove_dirs_no_dirs (root : Path) (paths : list FileInfo) (fs : FS)
    (log : list msg) :
  (∀ i, i ∈ paths → i.(IsDir) = false) →
  remove_dirs root paths fs log = (fs, log, None).
Proof.
  induction paths as [|d paths IH]; intros Hall; [done|].
  cbn [remove_dirs]. rewrite (Hall d) by left. apply IH.
  intros i Hi. apply Hall. by right.
Qed.



Lemma is_child_prefix (root p : Path) :
  is_child root p → root `prefix_of` p ∧ p ≠ root.
Proof.
  intros Hc. rewrite (is_child_path _ _ Hc). split; [by apply prefix_app_r|].
  intros Heq. apply (f_equal length) in Heq. rewrite length_app in Heq.
  simpl in Heq. lia.
Qed.


Lemma Prune_clears_dirs (root : Path) (fs fs' : FS) (now : Time) (numWeeks : Z)
    (log : list msg) (q : Path) :
  fs_wf fs → "" ∉ root → root ≠ [] →
  Prune root fs now numWeeks = (fs', log, None) →
  root `prefix_of` q → q ≠ root → ¬ is_child root q → fs' !! q = None.
Proof.
  intros Hwf Hroot Hroot0 HP Hpre Hne Hnc.
  destruct (Prune_states _ _ _ _ _ _ Hwf Hroot Hroot0 HP)
    as (fs0 & fs1 & fs2 & entries & log1 & jsonData
        & _ & _ & _ & _ & _ & Hwf1 & Hclean & _ & ->).
  destruct (prune_cleanup_spec _ _ _ _ _ Hwf1 Hclean) as (_ & _ & _ & _ & _ & Hleft).
  rewrite path_Join_name by done. rewrite lookup_insert_ne.
  - destruct (fs2 !! q) as [n|] eqn:Hq; [|done].
    by destruct (Hleft q n Hq Hpre Hne) as [? _].
  - intros <-. apply Hnc, is_child_app.
Qed.

(* ------------------------------------------------------------------- *)
(* Pruning below a root that cannot be modified                        *)
(* ------------------------------------------------------------------- *)













(* ------------------------------------------------------------------- *)
(* Digests and their paths                                             *)
(* ------------------------------------------------------------------- *)

Lemma defineEntryPath_None_iff (root : Path) (digest : bytes) :
  defineEntryPath root digest = None ↔ (length digest < 2)%nat.
Proof.
  destruct digest as [|b1 [|b2 rest]]; simpl; [split; [lia|done]..|].
  split; [|lia]. intros H.
  destruct (defineEntryPath root (b1 :: b2 :: rest)) as [[er ep]|] eqn:Hp; [done|].
  exfalso. revert Hp. unfold defineEntryPath, slice_from, slice.
  cbn [hex_EncodeToString]. set (r := hex_EncodeToString rest). cbn.
  rewrite !decide_True by lia. done.
Qed.

(** X1: SaveEntry and FindEntry panic exactly on the digests of fewer than
    two bytes (fewer than 4 hex characters), whatever the file system
    holds. *)
Theorem SaveEntry_FindEntry_panic_iff (c : FileSystemCache) (fs : FS) (now : Time)
    (digest content : bytes) :
  (SaveEntry c fs now digest content = None ↔ (length digest < 2)%nat)
  ∧ (FindEntry c fs now digest = None ↔ (length digest < 2)%nat).
Proof.
  rewrite <- (defineEntryPath_None_iff c.(root)).
  assert (Hsave : ∀ b, SaveEntry c fs now digest b = None
                       ↔ defineEntryPath c.(root) digest = None).
  { intros b. unfold SaveEntry. by destruct (defineEntryPath _ _) as [[? ?]|]. }
  split; [apply Hsave|].
  unfold FindEntry, checkJsonEntry, checkFsEntry.
  destruct (readJson fs _) as [entries log].
  destruct (entries !! hex_EncodeToString digest) as [entry|].
  - destruct (SaveEntry c fs now digest _) as [[fs' err]|] eqn:Hs; simpl.
    + split; [done|]. intros Hp. apply (Hsave (go_bytes (Content entry))) in Hp.
      congruence.
    + split; [|done]. intros _. by apply (Hsave (go_bytes (Content entry))).
  - simpl. by destruct (defineEntryPath _ _) as [[? ?]|].
Qed.

(** X2: a digest of exactly two bytes can never be saved: its entry path is
    its shard directory, and SaveEntry returns an error. *)
Theorem SaveEntry_two_bytes_fails (c : FileSystemCache) (fs : FS) (now : Time)
    (b1 b2 : byte) (content : bytes) :
  ∃ fs' err, SaveEntry c fs now [b1; b2] content = Some (fs', Some err).
Proof.
  unfold SaveEntry.
  assert (Hp : ∃ er, defineEntryPath c.(root) [b1; b2] = Some (er, er) ∧ er ≠ []).
  { exists (c.(root) ++ [String (hexchar (Z.shiftr (byteZ b1) 4))
                           (String (hexchar (Z.land (byteZ b1) 15)) "");
                         String (hexchar (Z.shiftr (byteZ b2) 4))
                           (String (hexchar (Z.land (byteZ b2) 15)) "")]).
    split; [|by destruct (root c)].
    unfold defineEntryPath, slice_from, slice. cbn.
    rewrite !decide_True by lia. cbn. unfold path_Join.
    rewrite !filter_cons_True by done. rewrite filter_nil.
    rewrite filter_cons_False by (intros Hx; by apply Hx).
    by rewrite filter_nil, app_nil_r. }
  destruct Hp as (er & -> & Her). simpl.
  destruct (os_MkdirAll fs er) as [fs1|e] eqn:Hmk; [|eauto].
  destruct (mkdir_from_creates _ _ _ _ Hmk Her) as (r & w & Hdir).
  simpl in Hdir. unfold os_Create. rewrite Hdir. eauto.
Qed.

Lemma unhex_hexchar (v : byte) :
  unhex (hexchar (Z.shiftr (byteZ v) 4)) (hexchar (Z.land (byteZ v) 15)) = Some v.
Proof. destruct v; reflexivity. Qed.

Lemma hex_EncodeToString_inj (d d' : bytes) :
  hex_EncodeToString d = hex_EncodeToString d' → d = d'.
Proof.
  revert d'. induction d as [|v d IH]; intros [|v' d']; simpl; try done.
  intros [= H1 H2 Hrest]. f_equal; [|by apply IH].
  pose proof (unhex_hexchar v) as Hv. rewrite H1, H2, unhex_hexchar in Hv.
  by injection Hv.
Qed.

Lemma substring_full (s : string) : substring 0 (String.length s) s = s.
Proof. induction s as [|c s IH]; simpl; [done | by rewrite IH]. Qed.

(* The two paths of a digest of at least two bytes. *)
Lemma defineEntryPath_cons2 (root : Path) (b1 b2 : byte) (rest : bytes) :
  defineEntryPath root (b1 :: b2 :: rest) =
    Some (root ++ [hex_EncodeToString [b1]; hex_EncodeToString [b2]],
          root ++ [hex_EncodeToString [b1]; hex_EncodeToString [b2]]
               ++ (if decide (hex_EncodeToString rest = "") then []
                   else [hex_EncodeToString rest])).
Proof.
  unfold defineEntryPath, slice_from, slice. cbn [hex_EncodeToString].
  set (r := hex_EncodeToString rest). cbn.
  rewrite !decide_True by lia. cbn. unfold path_Join.
  rewrite !filter_cons_True by done. rewrite !filter_nil.
  rewrite Nat.sub_0_r, substring_full, <- app_assoc. simpl.
  assert (H00 : substring 0 0 r = "") by (by destruct r). rewrite H00.
  case_decide as Hr.
  - rewrite filter_cons_False by (intros Hx; by apply Hx). done.
  - by rewrite filter_cons_True.
Qed.

Lemma hex_two_chars (v : byte) : String.length (hex_EncodeToString [v]) = 2%nat.
Proof. done. Qed.

Lemma entry_path_inj (root : Path) (d d' : bytes) (er er' ep : Path) :
  defineEntryPath root d = Some (er, ep) →
  defineEntryPath root d' = Some (er', ep) →
  d = d'.
Proof.
  destruct d as [|b1 [|b2 rest]]; [done..|].
  destruct d' as [|b1' [|b2' rest']]; [done..|].
  rewrite !defineEntryPath_cons2. intros [= _ <-] [= _ Heq].
  apply app_inv_head in Heq. injection Heq as H1 H2 Hrest.
  apply hex_EncodeToString_inj. change (b1 :: b2 :: rest) with ([b1] ++ [b2] ++ rest).
  change (b1' :: b2' :: rest') with ([b1'] ++ [b2'] ++ rest').
  assert (Hr : hex_EncodeToString rest' = hex_EncodeToString rest).
  { repeat case_decide; congruence. }
  simpl in *. congruence.
Qed.

(** X3: two digests have the same entry path exactly when they are the same
    digest: no two digests share an entry file, and the hex encoding of
    digests is injective. *)
Theorem defineEntryPath_inj (root : Path) (d d' : bytes) (er er' ep ep' : Path) :
  defineEntryPath root d = Some (er, ep) →
  defineEntryPath root d' = Some (er', ep') →
  (ep = ep' ↔ d = d')
  ∧ (hex_EncodeToString d = hex_EncodeToString d' ↔ d = d').
Proof.
  intros Hd Hd'. split; split.
  - intros <-. by eapply entry_path_inj.
  - intros <-. congruence.
  - apply hex_EncodeToString_inj.
  - by intros <-.
Qed.

(** X4: the key that Prune rebuilds from an entry path (the names of the two
    parent directories and the file name) is the hex encoding of the digest
    the path was made for, for every digest of at least three bytes. *)
Theorem digest_of_defineEntryPath (root : Path) (d : bytes) (er ep : Path) :
  (3 ≤ length d)%nat →
  defineEntryPath root d = Some (er, ep) →
  digest_of ep = hex_EncodeToString d ∧ filepath_Dir ep = er.
Proof.
  destruct d as [|b1 [|b2 [|b3 rest]]]; simpl; try lia. intros _.
  rewrite defineEntryPath_cons2. rewrite decide_False by done.
  intros [= <- <-]. split.
  - by rewrite (digest_of_entry root).
  - unfold filepath_Dir.
    match goal with
    | |- removelast (root ++ [?a; ?b; ?x]) = _ =>
        change (root ++ [a; b; x]) with (root ++ [a; b] ++ [x])
    end.
    by rewrite app_assoc, removelast_last.
Qed.

Lemma hexchar_not_n (z : Z) : hexchar z ≠ "n"%char.
Proof.
  unfold hexchar, hextable. generalize (Z.to_nat z). intros n.
  do 16 (destruct n as [|n]; [done|]). done.
Qed.

Lemma Base_pair (root : Path) (a b : string) : filepath_Base (root ++ [a; b]) = b.
Proof.
  unfold filepath_Base. change (root ++ [a; b]) with (root ++ [a] ++ [b]).
  by rewrite app_assoc, last_last.
Qed.

(** X5: the entry file of a digest is never taken for the index: its name
    is not entries.json (the walk of Prune skips files of that name), it is
    not empty, and its path is not the path of the index file. *)
Theorem entry_path_never_index (root : Path) (d : bytes) (er ep : Path) :
  defineEntryPath root d = Some (er, ep) →
  filepath_Base ep ≠ ENTRIES_FILE
  ∧ filepath_Base ep ≠ ""
  ∧ ep ≠ path_Join root [ENTRIES_FILE].
Proof.
  destruct d as [|b1 [|b2 rest]]; [done..|].
  rewrite defineEntryPath_cons2, path_Join_name by done.
  destruct rest as [|b3 rest].
  - rewrite decide_True by done. intros [= <- <-]. cbn [app].
    rewrite ?app_nil_r, Base_pair. split_and!; [done..|].
    intros Heq. apply (f_equal length) in Heq.
    rewrite !length_app in Heq. simpl in Heq. lia.
  - rewrite decide_False by done. intros [= <- <-]. cbn [app].
    rewrite Base_entry. split_and!; [| done |].
    + simpl. intros [= _ Hn]. by apply hexchar_not_n in Hn.
    + intros Heq. apply (f_equal length) in Heq.
      rewrite !length_app in Heq. simpl in Heq. lia.
Qed.

(* What a save that succeeds has done. *)
Lemma SaveEntry_success_inv (c : FileSystemCache) (fs fs' : FS) (now : Time)
    (digest content : bytes) :
  SaveEntry c fs now digest content = Some (fs', None) →
  ∃ er x fs1,
    defineEntryPath c.(root) digest = Some (er, er ++ [x])
    ∧ os_MkdirAll fs er = Ok fs1
    ∧ (∀ d t, fs1 !! (er ++ [x]) ≠ Some (File d t false))
    ∧ (∀ r w, fs1 !! (er ++ [x]) ≠ Some (Dir r w))
    ∧ fs' = <[er ++ [x] := File content now true]> fs1.
Proof.
  unfold SaveEntry. destruct (defineEntryPath _ _) as [[er ep]|] eqn:Hp; [|done].
  simpl. destruct (os_MkdirAll fs er) as [fs1|e1] eqn:H1; [|done].
  destruct (os_Create fs1 now ep) as [fs2|e2] eqn:H2; [|done].
  unfold file_Write. intros [= <-].
  destruct (defineEntryPath_inv _ _ _ _ Hp) as (a & b & _ & Her & Hep).
  assert (Her0 : er ≠ []) by (subst er; by destruct (root c)).
  destruct (mkdir_from_creates _ _ _ _ H1 Her0) as (r & w & Hdir). simpl in Hdir.
  destruct Hep as [->|[x ->]].
  { unfold os_Create in H2. by rewrite Hdir in H2. }
  exists er, x, fs1. split_and!; [done..| | |].
  - intros d t Hf. unfold os_Create in H2. by rewrite Hf in H2.
  - intros r' w' Hf. unfold os_Create in H2. by rewrite Hf in H2.
  - apply os_Create_lookup in H2 as ->. apply insert_insert_eq.
Qed.

(** X6: after a save of a digest has succeeded, saving that digest again
    always succeeds, whatever the content and the time: it replaces the
    content and the modification time of the entry file and changes nothing
    else (the last write wins). *)
Theorem SaveEntry_overwrites (c : FileSystemCache) (fs fs1 : FS) (now now' : Time)
    (digest content content' : bytes) :
  SaveEntry c fs now digest content = Some (fs1, None) →
  ∃ er ep,
    defineEntryPath c.(root) digest = Some (er, ep)
    ∧ SaveEntry c fs1 now' digest content'
        = Some (<[ep := File content' now' true]> fs1, None).
Proof.
  intros Hsave.
  destruct (SaveEntry_success_inv _ _ _ _ _ _ Hsave)
    as (er & x & fsA & Hp & Hmk & _ & _ & ->).
  exists er, (er ++ [x]). split; [done|].
  unfold SaveEntry. rewrite Hp. simpl.
  assert (Hmk' : os_MkdirAll (<[er ++ [x] := File content now true]> fsA) er
                 = Ok (<[er ++ [x] := File content now true]> fsA)).
  { apply mkdir_from_existing. intros k Hk. simpl.
    destruct (mkdir_from_all_dirs _ _ _ _ Hmk k Hk) as (r & w & Hd).
    simpl in Hd. exists r, w. rewrite lookup_insert_ne; [done|].
    intros Heq. apply (f_equal length) in Heq.
    rewrite length_app, length_take in Heq. simpl in Heq. lia. }
  rewrite Hmk'. unfold os_Create, file_Write. rewrite lookup_insert_eq.
  by rewrite !insert_insert_eq.
Qed.

(** X7: SaveEntry changes no node but the entry file of the digest, and adds
    nothing but missing directories on the way to it; in particular the
    index file and the entry file of every other digest of at least three
    bytes are as before, whether the save succeeds or fails. *)
Theorem SaveEntry_frame (c : FileSystemCache) (fs fs' : FS) (now : Time)
    (digest content : bytes) (err : option error) :
  SaveEntry c fs now digest content = Some (fs', err) →
  ∃ er ep,
    defineEntryPath c.(root) digest = Some (er, ep)
    ∧ (∀ q, q ≠ ep →
         fs' !! q = fs !! q
         ∨ (fs !! q = None ∧ fs' !! q = Some (Dir true true) ∧ q `prefix_of` er))
    ∧ fs' !! path_Join c.(root) [ENTRIES_FILE] = fs !! path_Join c.(root) [ENTRIES_FILE]
    ∧ (∀ digest', digest' ≠ digest → (3 ≤ length digest')%nat →
         entry_file c.(root) fs' digest' = entry_file c.(root) fs digest').
Proof.
  intros Hsave. pose proof (SaveEntry_index_file _ _ _ _ _ _ _ Hsave) as Hidx.
  unfold SaveEntry in Hsave.
  destruct (defineEntryPath _ _) as [[er ep]|] eqn:Hp; [|done].
  simpl in Hsave. exists er, ep. split; [done|].
  assert (Hframe : ∀ q, q ≠ ep →
    fs' !! q = fs !! q
    ∨ (fs !! q = None ∧ fs' !! q = Some (Dir true true) ∧ q `prefix_of` er)).
  { intros q Hq.
    destruct (os_MkdirAll fs er) as [fs1|e1] eqn:H1;
      [|injection Hsave as <- _; by left].
    assert (H1q : fs1 !! q = fs !! q
                  ∨ (fs !! q = None ∧ fs1 !! q = Some (Dir true true)
                     ∧ q `prefix_of` er)).
    { destruct (mkdir_from_lookup _ _ _ _ H1 q) as [?|(? & ? & k & _ & ->)];
        [by left|]. right. split_and!; [done..|]. simpl. apply prefix_take. }
    destruct (os_Create fs1 now ep) as [fs2|e2] eqn:H2;
      [|by injection Hsave as <- _].
    apply os_Create_lookup in H2 as ->. unfold file_Write in Hsave.
    injection Hsave as <- _. by rewrite !lookup_insert_ne. }
  split; [done|]. split; [done|].
  intros d' Hd' Hlen. unfold entry_file.
  destruct (defineEntryPath c.(root) d') as [[er' ep']|] eqn:Hp'; [|done]. simpl.
  assert (Hne : ep' ≠ ep).
  { intros ->. apply Hd'. by eapply entry_path_inj. }
  destruct (Hframe ep' Hne) as [?|(_ & _ & Hpre)]; [done|]. exfalso.
  apply prefix_length in Hpre.
  destruct (defineEntryPath_inv _ _ _ _ Hp) as (a & b & _ & -> & _).
  destruct d' as [|b1 [|b2 [|b3 rest]]]; simpl in Hlen; try lia.
  rewrite defineEntryPath_cons2, decide_False in Hp' by done.
  injection Hp' as _ <-. rewrite !length_app in Hpre. simpl in Hpre. lia.
Qed.

(** X8: when the index has no entry for the digest, FindEntry writes
    nothing and returns what reading the entry path gives: nil and no error
    when nothing is there and no component on the way is a regular file,
    nil and the error ENOTDIR when nothing is there and a component on the
    way is a regular file, the bytes when a file is there and can be
    opened, nil and the error when it cannot be opened, and an empty
    content that is not nil together with the error when the path is a
    directory (which the caller must not take for a hit). *)
Theorem FindEntry_index_miss (c : FileSystemCache) (fs : FS) (now : Time)
    (digest : bytes) :
  index c.(root) fs !! hex_EncodeToString digest = None →
  (2 ≤ length digest)%nat →
  FindEntry c fs now digest =
    Some (fs, (readJson fs (path_Join c.(root) [ENTRIES_FILE])).2,
          match entry_file c.(root) fs digest with
          | None =>
              (None, if entry_barred c.(root) fs digest then Some ENOTDIR else None)
          | Some (File data _ true) => (Some data, None)
          | Some (File _ _ false) => (None, Some EACCES)
          | Some (Dir true _) => (Some [], Some EISDIR)
          | Some (Dir false _) => (None, Some EACCES)
          end).
Proof.
  intros Hidx Hlen. unfold FindEntry. rewrite checkJsonEntry_miss by done. simpl.
  unfold checkFsEntry, entry_file, entry_barred.
  destruct (defineEntryPath c.(root) digest) as [[er ep]|] eqn:Hp.
  - simpl. unfold os_Stat, os_Open, absent.
    destruct (fs !! ep) as [[data t [|]|[|] w]|]; try done.
    by destruct (file_on_the_way fs ep).
  - apply defineEntryPath_None_iff in Hp. lia.
Qed.

(** X9: readJson returns entries only from an index file that is a regular
    file and can be read; otherwise it returns the empty map.  It then
    prints nothing exactly when the path is missing and no component on the
    way to it is a regular file, and it prints one reading warning when the
    path is a directory or a file that cannot be opened, or when a
    component on the way is a regular file. *)
Theorem readJson_without_file (fs : FS) (filepath : Path) :
  (∀ data t, fs !! filepath ≠ Some (File data t true)) →
  (readJson fs filepath).1 = ∅
  ∧ ((readJson fs filepath).2 = []
     ↔ fs !! filepath = None ∧ file_on_the_way fs filepath = false)
  ∧ (is_Some (fs !! filepath) ∨ file_on_the_way fs filepath = true →
     ∃ err, (readJson fs filepath).2 = [ErrorReadingCacheJSON err]).
Proof.
  intros Hno. unfold readJson, os_Stat, ioutil_ReadFile, absent.
  destruct (fs !! filepath) as [[data t [|]|r w]|] eqn:Hf; simpl.
  - by destruct (Hno data t).
  - split_and!; [done| |eauto]. split; [done|]. by intros [? _].
  - split_and!; [done| |eauto]. split; [done|]. by intros [? _].
  - destruct (file_on_the_way fs filepath); simpl.
    + split_and!; [done| |eauto]. split; [done|]. by intros [_ ?].
    + split_and!; [done..|]. by intros [[? ?]|?].
Qed.

(* ------------------------------------------------------------------- *)
(* Pruning: what a pass leaves alone                                   *)
(* ------------------------------------------------------------------- *)

Lemma path_Join_prefix (root : Path) (names : list string) :
  root `prefix_of` path_Join root names.
Proof. unfold path_Join. by apply prefix_app_r. Qed.

Lemma remove_dirs_frame (root : Path) (paths : list FileInfo) (fs fs' : FS)
    (log log' : list msg) (oerr : option error) (q : Path) :
  remove_dirs root paths fs log = (fs', log', oerr) →
  ¬ root `prefix_of` q → fs' !! q = fs !! q.
Proof.
  revert fs log. induction paths as [|d paths IH]; intros fs log Hrm Hq.
  { by injection Hrm as <- _ _. }
  cbn [remove_dirs] in Hrm. destruct (negb (IsDir d)); [by eapply IH|].
  destruct (os_RemoveAll fs _) as [fs1 oe] eqn:H1.
  assert (H1q : fs1 !! q = fs !! q).
  { eapply os_RemoveAll_other; [done|]. intros Hpre. apply Hq.
    etrans; [apply path_Join_prefix | done]. }
  destruct oe as [e|]; [by injection Hrm as <- _ _|].
  rewrite <- H1q. by eapply IH.
Qed.

Lemma prune_migrate_frame (root : Path) (fs fs' : FS) (entries : Entries)
    (log : list msg) (oerr : option error) (q : Path) :
  prune_migrate root fs = (fs', entries, log, oerr) →
  ¬ root `prefix_of` q → fs' !! q = fs !! q.
Proof.
  intros Hm Hq. destruct (fs !! root) as [n|] eqn:Hr.
  - rewrite prune_migrate_walk in Hm by eauto.
    destruct (walk_nodes_fs _ _ _ _ _ _ _ _ (walk_ok_walk_order _ _) Hm q)
      as [?|(_ & d & t & Hin & _)]; [done|].
    by apply elem_of_walk_order in Hin as [_ ?].
  - unfold prune_migrate, filepath_Walk, os_Stat in Hm. rewrite Hr in Hm.
    destruct (readJson fs _) as [e l]. simpl in Hm. by injection Hm as <- _ _ _.
Qed.

(** X10: a pass of Prune, whether it comes to its end or stops on an error,
    changes nothing outside the cache root: a node that is not at or below
    the root is as before, except that missing directories on the way to
    the root may have been made. *)
Theorem Prune_frame (root : Path) (fs fs' : FS) (now : Time) (numWeeks : Z)
    (log : list msg) (oerr : option error) (q : Path) :
  Prune root fs now numWeeks = (fs', log, oerr) →
  ¬ root `prefix_of` q →
  fs' !! q = fs !! q
  ∨ (fs !! q = None ∧ fs' !! q = Some (Dir true true) ∧ q `prefix_of` root).
Proof.
  intros HP Hq. unfold Prune in HP.
  destruct (os_MkdirAll fs root) as [fs0|e0] eqn:H0;
    [|injection HP as <- _ _; by left].
  assert (H0q : fs0 !! q = fs !! q
                ∨ (fs !! q = None ∧ fs0 !! q = Some (Dir true true)
                   ∧ q `prefix_of` root)).
  { destruct (mkdir_from_lookup _ _ _ _ H0 q) as [?|(? & ? & k & _ & ->)];
      [by left|]. right. split_and!; [done..|]. simpl. apply prefix_take. }
  destruct (prune_migrate root fs0) as [[[fs1 entries] log1] oe1] eqn:H1.
  pose proof (prune_migrate_frame _ _ _ _ _ _ _ H1 Hq) as H1q.
  rewrite <- H1q in H0q.
  destruct oe1 as [e1|]; [by injection HP as <- _ _|].
  unfold prune_cleanup in HP.
  destruct (os_ReadDir fs1 root) as [paths|e2]; [|by injection HP as <- _ _].
  destruct (remove_dirs root paths fs1 log1) as [[fs2 log2] oe2] eqn:H2.
  pose proof (remove_dirs_frame _ _ _ _ _ _ _ _ H2 Hq) as H2q.
  rewrite <- H2q in H0q.
  destruct oe2 as [e2|]; [by injection HP as <- _ _|]. cbn zeta in HP.
  destruct (json_MarshalIndent _) as [jsonData|e3]; [|by injection HP as <- _ _].
  destruct (ioutil_WriteFile fs2 now _ jsonData) as [fs3|e4] eqn:H4;
    [|by injection HP as <- _ _].
  apply ioutil_WriteFile_eq in H4 as ->. injection HP as <- _ _.
  rewrite lookup_insert_ne; [done|]. intros <-. apply Hq, path_Join_prefix.
Qed.

(* The walk neither changes nor prints anything at directories that can be
   listed and at files called entries.json. *)
Lemma walk_nodes_quiet (l : list (Path * Node)) (fs : FS) (entries : Entries)
    (log : list msg) :
  walk_ok l fs →
  (∀ p n, (p, n) ∈ l →
          (∃ w, n = Dir true w) ∨ filepath_Base p = ENTRIES_FILE ∧ readable n = true
          ∨ filepath_Base p = ENTRIES_FILE ∧ ∃ d t, n = File d t false) →
  walk_nodes prune_visit l (fs, entries, log) = (fs, entries, log, None).
Proof.
  induction l as [|[p n] l IH]; intros Hok Hin; [done|].
  destruct (walk_ok_cons _ _ _ _ Hok) as (Hp & _ & Hok1 & _).
  assert (Hin' : ∀ p n, (p, n) ∈ l →
            (∃ w, n = Dir true w) ∨ filepath_Base p = ENTRIES_FILE ∧ readable n = true
            ∨ filepath_Base p = ENTRIES_FILE ∧ ∃ d t, n = File d t false)
    by (intros p' n' ?; apply Hin; by right).
  cbn [walk_nodes]. rewrite (prune_visit_eq _ _ _ _ _ Hp).
  destruct (Hin p n (list_elem_of_here _ _))
    as [[w ->]|[[Hn Hr]|[Hn (d & t & ->)]]].
  - by apply IH.
  - destruct n as [d t rw|r w]; [|done]. rewrite decide_True by done. by apply IH.
  - rewrite decide_True by done. by apply IH.
Qed.

(** X11: the first pass on a cache root that does not exist yet (in a
    well-formed file system, where the root can be made) makes the root,
    finds no entry, and writes the index for the empty map; it reports 0
    entries found and none outdated. *)
Theorem Prune_first_run (root : Path) (fs fs0 : FS) (now : Time) (numWeeks : Z)
    (jsonData : bytes) :
  fs_wf fs → root ≠ [] →
  fs !! root = None →
  os_MkdirAll fs root = Ok fs0 →
  json_MarshalIndent ∅ = Ok jsonData →
  Prune root fs now numWeeks
    = (<[path_Join root [ENTRIES_FILE] := File jsonData now true]> fs0,
       [FoundCacheEntries 0 root; NoOutdatedEntries], None)
  ∧ fs0 !! root = Some (Dir true true).
Proof.
  intros Hwf Hroot0 Hroot Hmk Hjson.
  assert (Hbelow : ∀ q n, fs0 !! q = Some n → root `prefix_of` q →
                          q = root ∧ n = Dir true true).
  { intros q n Hq Hpre.
    destruct (mkdir_from_lookup _ _ _ _ Hmk q) as [Heq|(_ & Hn & k & _ & ->)].
    - rewrite Heq in Hq.
      destruct (fs_wf_ancestor fs root q n Hwf Hq Hpre Hroot0) as [? ?]. congruence.
    - simpl in *. split; [|congruence].
      apply prefix_length_eq; [apply prefix_take|]. by apply prefix_length. }
  destruct (mkdir_from_creates _ _ _ _ Hmk Hroot0) as (r & w & Hr). simpl in Hr.
  destruct (Hbelow root _ Hr) as [_ [= -> ->]]; [done|].
  split; [|done].
  assert (Hidx : fs0 !! path_Join root [ENTRIES_FILE] = None).
  { destruct (fs0 !! path_Join root [ENTRIES_FILE]) as [n|] eqn:Hn; [|done].
    destruct (Hbelow _ _ Hn (path_Join_prefix _ _)) as [Heq _].
    rewrite path_Join_name in Heq by done. apply (f_equal length) in Heq.
    rewrite length_app in Heq. simpl in Heq. lia. }
  unfold Prune. rewrite Hmk, prune_migrate_walk by eauto.
  unfold index. rewrite (readJson_missing _ _ Hidx); simpl.
  2:{ rewrite path_Join_name by done. by eapply os_MkdirAll_way. }
  rewrite walk_nodes_quiet; [|apply walk_ok_walk_order|].
  2:{ intros p n [Hp Hpre]%elem_of_walk_order. left.
      destruct (Hbelow p n Hp Hpre) as [_ ->]. eauto. }
  assert (Hclean : prune_cleanup root fs0 [] = (fs0, [], None)).
  { unfold prune_cleanup.
    destruct (os_ReadDir fs0 root) as [paths|e] eqn:Hdir.
    - apply remove_dirs_no_dirs. intros i Hi.
      apply (os_ReadDir_elem _ _ _ _ Hdir) in Hi as (p & n & Hp & Hc & ->).
      destruct (is_child_prefix _ _ Hc) as [Hpre Hne].
      by destruct (Hbelow p n Hp Hpre).
    - unfold os_ReadDir, dir_at in Hdir. destruct root; [done|].
      by rewrite Hr in Hdir. }
  rewrite Hclean. cbn zeta. unfold prune_evict. rewrite map_filter_empty.
  rewrite Hjson. unfold ioutil_WriteFile, os_Create, file_Write.
  rewrite Hidx. unfold parent_writable, dir_at.
  rewrite path_Join_name by done. unfold filepath_Dir. rewrite removelast_last.
  destruct root; [done|]. rewrite Hr. by rewrite insert_insert_eq.
Qed.



(* ------------------------------------------------------------------- *)
(* Pruning: the report and the window                                  *)
(* ------------------------------------------------------------------- *)

Lemma prune_evict_subseteq (now : Time) (duration : Z) (entries : Entries) :
  prune_evict now duration entries ⊆ entries.
Proof. apply map_filter_subseteq. Qed.

(** X13: a pass that comes to its end reports, as its last two messages,
    the number of entries it found (those of the index and those migrated)
    and then either that none is outdated, exactly when the eviction kept
    them all, or the number it removed, which is the number found minus
    the number written. *)
Theorem Prune_report (root : Path) (fs fs' : FS) (now : Time) (numWeeks : Z)
    (log : list msg) :
  Prune root fs now numWeeks = (fs', log, None) →
  ∃ entries log0 last jsonData,
    log = log0 ++ [FoundCacheEntries (size entries) root; last]
    ∧ json_MarshalIndent (prune_evict now (retention numWeeks) entries) = Ok jsonData
    ∧ fs' !! path_Join root [ENTRIES_FILE] = Some (File jsonData now true)
    ∧ (size (prune_evict now (retention numWeeks) entries) ≤ size entries)%nat
    ∧ (last = NoOutdatedEntries
       ↔ prune_evict now (retention numWeeks) entries = entries)
    ∧ (last = NoOutdatedEntries
       ∨ last = RemovedOutdated
                  (Z.of_nat (size entries)
                   - Z.of_nat (size (prune_evict now (retention numWeeks) entries)))).
Proof.
  unfold Prune. destruct (os_MkdirAll fs root) as [fs0|e0]; [|done].
  destruct (prune_migrate root fs0) as [[[fs1 entries] log1] [e1|]]; [done|].
  destruct (prune_cleanup root fs1 log1) as [[fs2 log2] [e2|]]; [done|].
  cbn zeta. destruct (json_MarshalIndent _) as [jsonData|e3] eqn:Hjson; [|done].
  destruct (ioutil_WriteFile fs2 now _ jsonData) as [fs3|e4] eqn:Hwrite; [|done].
  intros [= <- <-]. apply ioutil_WriteFile_eq in Hwrite as ->.
  set (pruned := prune_evict now (retention numWeeks) entries) in *.
  pose proof (prune_evict_subseteq now (retention numWeeks) entries) as Hsub.
  fold pruned in Hsub. pose proof (map_subseteq_size _ _ Hsub) as Hsize.
  eexists entries, log2, _, jsonData.
  split_and!; [done | done | apply lookup_insert_eq | done | |].
  - unfold pruned in *. case_decide as Hdiff; split; try done.
    + intros _. apply map_subseteq_size_eq; [done | lia].
    + intros Heq. apply (f_equal size) in Heq. lia.
  - unfold pruned in *. case_decide; [by left|]. right. f_equal. lia.
Qed.

(** X14: within the windows whose duration fits (-15250 to 15250 weeks), a
    longer window never evicts more: what the eviction keeps for W1 weeks
    it keeps for every W2 >= W1; and the eviction only removes entries, it
    adds and changes none. *)
Theorem prune_evict_longer_window (now : Time) (W1 W2 : Z) (entries : Entries) :
  -15250 ≤ W1 → W1 ≤ W2 → W2 ≤ 15250 →
  prune_evict now (retention W1) entries ⊆ prune_evict now (retention W2) entries
  ∧ prune_evict now (retention W2) entries ⊆ entries.
Proof.
  clear json_Unmarshal json_MarshalIndent.
  intros H1 H12 H2. split; [|apply prune_evict_subseteq].
  rewrite !retention_small by lia. unfold prune_evict.
  apply map_subseteq_spec. intros k v [Hk Hage]%map_lookup_filter_Some.
  apply map_lookup_filter_Some. split; [done|]. simpl in *.
  unfold time_Hour in *. lia.
Qed.

(* ------------------------------------------------------------------- *)
(* Saving, pruning and looking up                                      *)
(* ------------------------------------------------------------------- *)

Lemma entry_path_shape (root : Path) (digest : bytes) (er ep : Path) :
  (3 ≤ length digest)%nat →
  defineEntryPath root digest = Some (er, ep) →
  ∃ a b x, ep = root ++ [a; b; x] ∧ x ≠ ENTRIES_FILE
           ∧ a +:+ b +:+ x = hex_EncodeToString digest.
Proof.
  destruct digest as [|b1 [|b2 [|b3 rest]]]; simpl; try lia. intros _.
  rewrite defineEntryPath_cons2, decide_False by done. intros [= _ <-].
  eexists _, _, _. split; [reflexivity|]. split; [|done].
  simpl. intros [= _ Hn]. by apply hexchar_not_n in Hn.
Qed.

(** X15: an entry that has been saved is served from the index after a
    prune pass: when the entry file of digest D holds content C with
    modification time T in a well-formed tree of entry files, and a pass
    with T within the window comes to its end and writes a document that
    is read back as written, then the entry file is gone, the index has D
    with content C and last-used time T, and FindEntry(D) returns C. *)
Theorem Prune_then_FindEntry (c : FileSystemCache) (fs1 fs2 : FS)
    (now now' : Time) (numWeeks : Z) (log : list msg)
    (digest content : bytes) (t : Time) :
  fs_wf fs1 → "" ∉ c.(root) → c.(root) ≠ [] →
  sharded_tree c.(root) fs1 →
  (3 ≤ length digest)%nat →
  entry_file c.(root) fs1 digest = Some (File content t true) →
  Prune c.(root) fs1 now numWeeks = (fs2, log, None) →
  time_Sub now t ≤ retention numWeeks →
  from_option reads_back True (Prune_index c.(root) fs1 now numWeeks) →
  entry_file c.(root) fs2 digest = None
  ∧ index c.(root) fs2 !! hex_EncodeToString digest
      = Some (mkEntry (go_string content) t)
  ∧ ∃ fs3 log', FindEntry c fs2 now' digest = Some (fs3, log', (Some content, None)).
Proof.
  intros Hwf Hroot Hroot0 Htree Hlen Hfile HP Hage Hback.
  unfold entry_file in Hfile.
  destruct (defineEntryPath c.(root) digest) as [[er ep]|] eqn:Hp; [|done].
  simpl in Hfile.
  destruct (entry_path_shape _ _ _ _ Hlen Hp) as (a & b & x & -> & Hx & Hkey).
  destruct (Prune_migrates _ _ _ _ _ _ a b x content t Hwf Hroot Hroot0 HP Hfile Hx)
    as (pruned & jsonData & Hpi & Hjson & Hidx & Hentry); [|done|].
  { intros p' d' t' Hp' Hpre Hname Hdig.
    destruct (Htree p' d' t' Hp' Hpre Hname) as (digest' & er' & Hlen' & Hdef').
    destruct (entry_path_shape _ _ _ _ Hlen' Hdef') as (a' & b' & x' & -> & _ & Hkey').
    rewrite digest_of_entry, Hkey', Hkey in Hdig.
    apply hex_EncodeToString_inj in Hdig as ->. congruence. }
  rewrite Hpi in Hback. simpl in Hback. unfold reads_back in Hback.
  rewrite Hjson in Hback.
  assert (Hindex : index c.(root) fs2 !! hex_EncodeToString digest
                   = Some (mkEntry (go_string content) t)).
  { unfold index. rewrite (readJson_decoded _ _ _ _ _ Hidx Hback). simpl.
    by rewrite <- Hkey. }
  split_and!; [|done|].
  - unfold entry_file. rewrite Hp. simpl.
    eapply Prune_clears_dirs; [done..| by apply prefix_app_r | |].
    + intros Heq. apply (f_equal length) in Heq. rewrite length_app in Heq.
      simpl in Heq. lia.
    + intros [_ Hc]. unfold filepath_Dir in Hc.
      change (root c ++ [a; b; x]) with (root c ++ [a; b] ++ [x]) in Hc.
      rewrite app_assoc, removelast_last in Hc.
      apply (f_equal length) in Hc. rewrite length_app in Hc. simpl in Hc. lia.
  - destruct (SaveEntry_runs c fs2 now' digest (go_bytes (go_string content)))
      as [[fs3 err] Hsave]; [by rewrite Hp|].
    exists fs3, (readJson fs2 (path_Join c.(root) [ENTRIES_FILE])).2.
    unfold FindEntry. rewrite (checkJsonEntry_hit _ _ _ _ _ Hindex). simpl.
    rewrite Hsave. simpl. unfold go_bytes, go_string.
    by rewrite list_byte_of_string_of_list_byte.
Qed.
End Cache.

(* --------------------------------------------------------------------- *)
(* Concrete runs                                                         *)
(* --------------------------------------------------------------------- *)

Example defineEntryPath_ab01ff :
  defineEntryPath ["cache"] [xab; x01; xff] =
    Some (["cache"; "ab"; "01"], ["cache"; "ab"; "01"; "ff"]).
Proof. reflexivity. Qed.

(* A digest of two bytes has no file name left: the entry path is the
   shard directory itself. *)
Example defineEntryPath_ab01 :
  defineEntryPath ["cache"] [xab; x01] =
    Some (["cache"; "ab"; "01"], ["cache"; "ab"; "01"]).
Proof. reflexivity. Qed.

Example defineEntryPath_ab : defineEntryPath ["cache"] [xab] = None.
Proof. reflexivity. Qed.

Lemma defineEntryPath_partition_witness :
  defineEntryPath ["cache"] [xab; x01; xff] =
    Some (["cache"; "ab"; "01"], ["cache"; "ab"; "01"; "ff"])
  ∧ ∃ dir path dir' path',
      defineEntryPath ["cache"] [xab; x01; xff] = Some (dir, path)
      ∧ defineEntryPath ["cache"] [xcd; x01; xff] = Some (dir', path')
      ∧ dir ≠ dir' ∧ path ≠ path'.
Proof.
  destruct (defineEntryPath_partition ["cache"] [xab; x01; xff] [xcd; x01; xff])
    as [H1 H2]; [vm_compute; lia|].
  split; [exact H1|]. apply H2; [reflexivity | reflexivity | discriminate].
Defined.

Lemma prune_evict_window_witness :
  prune_evict 1000 (retention 2) {["ab01ff" := mkEntry "x" 400]} !! "ab01ff"
    = Some (mkEntry "x" 400)
  ↔ 1000 - 400 ≤ 2 * 7 * 24 * time_Hour.
Proof.
  apply (prune_evict_window 1000 2 {["ab01ff" := mkEntry "x" 400]} "ab01ff"
           (mkEntry "x" 400)); [lia | reflexivity].
Defined.

Lemma prune_evict_overflow_witness :
  retention 15251 = 15251 * 7 * 24 * time_Hour - 2 ^ 64
  ∧ retention 15251 < 0
  ∧ prune_evict 0 (retention 15251) {["ab01ff" := mkEntry "x" 0]} !! "ab01ff"
      = None.
Proof.
  apply (prune_evict_overflow 0 {["ab01ff" := mkEntry "x" 0]} "ab01ff"
           (mkEntry "x" 0)); [reflexivity | simpl; lia].
Defined.

(* With a window of 15251 weeks the duration wraps around to a negative
   number of nanoseconds, and an entry used this very instant is dropped. *)
Lemma prune_evict_window_overflow :
  ¬ (prune_evict 0 (retention 15251) {["ab01ff" := mkEntry "x" 0]} !! "ab01ff"
       = Some (mkEntry "x" 0)
     ↔ 0 - 0 ≤ 15251 * 7 * 24 * time_Hour).
Proof.
  intros [_ H].
  assert (Hk : prune_evict 0 (retention 15251) {["ab01ff" := mkEntry "x" 0]}
                 !! "ab01ff" = None) by compute_done.
  rewrite Hk in H. discriminate H. unfold time_Hour. lia.
Qed.

Lemma readJson_decode_error_witness :
  readJson Lines.Unmarshal fs_broken_index ["cache"; "entries.json"]
    = ({[ "ab01ff" := mkEntry "hello" 400 ]}, [ErrorDecodingCacheJSON EJSON])
  ∧ ({[ "ab01ff" := mkEntry "hello" 400 ]} : Entries) ≠ ∅.
Proof.
  split.
  - eapply (readJson_decode_error Lines.Unmarshal fs_broken_index);
      [reflexivity | compute_done].
  - compute_done.
Defined.

Lemma FindEntry_absent_witness :
  entry_barred ["cache"] fs_sharded_only [xcd; x02; xee] = false
  ∧ ∃ log,
      FindEntry Lines.Unmarshal cache fs_sharded_only 1000 [xcd; x02; xee]
        = Some (fs_sharded_only, log, (None, None)).
Proof.
  assert (Hb : entry_barred ["cache"] fs_sharded_only [xcd; x02; xee] = false)
    by (vm_compute; reflexivity).
  split; [done|].
  destruct (FindEntry_absent Lines.Unmarshal cache fs_sharded_only 1000
              [xcd; x02; xee]) as [log H]; [compute_done..|].
  simpl in H. rewrite Hb in H. by exists log.
Defined.

(* Digests of fewer than 4 hex characters make FindEntry panic, although
   nothing is stored for them; for the digest ab01 the entry path is the
   shard directory of ab01ff, and reading it is an error.  And when the
   shard directory of a digest that is in no tier is a regular file, Stat
   fails with ENOTDIR, which is not a not-exist error: FindEntry returns
   it. *)
Lemma FindEntry_absent_short_digest :
  index Lines.Unmarshal ["cache"] fs_empty_cache !! hex_EncodeToString [] = None
  ∧ FindEntry Lines.Unmarshal cache fs_empty_cache 1000 [] = None
  ∧ FindEntry Lines.Unmarshal cache fs_empty_cache 1000 [xab] = None
  ∧ index Lines.Unmarshal ["cache"] fs_sharded_only !! hex_EncodeToString [xab; x01]
      = None
  ∧ FindEntry Lines.Unmarshal cache fs_sharded_only 1000 [xab; x01]
      = Some (fs_sharded_only, [], (Some [], Some EISDIR))
  ∧ fs_wf fs_file_shard
  ∧ index Lines.Unmarshal ["cache"] fs_file_shard
      !! hex_EncodeToString [xcd; x02; xee] = None
  ∧ entry_file ["cache"] fs_file_shard [xcd; x02; xee] = None
  ∧ FindEntry Lines.Unmarshal cache fs_file_shard 1000 [xcd; x02; xee]
      = Some (fs_file_shard, [], (None, Some ENOTDIR)).
Proof. split_and!; compute_done. Qed.

Lemma FindEntry_fallback_witness :
  ∃ fs' log,
    FindEntry Lines.Unmarshal cache fs_sharded_only 1000 [xab; x01; xff]
      = Some (fs', log, (Some hello, None))
    ∧ fs' = fs_sharded_only
    ∧ index Lines.Unmarshal ["cache"] fs' !! "ab01ff" = None.
Proof.
  apply (FindEntry_fallback Lines.Unmarshal cache fs_sharded_only 1000
           [xab; x01; xff] hello 500); compute_done.
Defined.

(* A hit in the sharded tier is returned and nothing is written: the index
   has no entry for the digest after the call. *)
Lemma FindEntry_fallback_no_migration :
  index Lines.Unmarshal ["cache"] fs_sharded_only !! "ab01ff" = None
  ∧ entry_file ["cache"] fs_sharded_only [xab; x01; xff] = Some (File hello 500 true)
  ∧ FindEntry Lines.Unmarshal cache fs_sharded_only 1000 [xab; x01; xff]
      = Some (fs_sharded_only, [], (Some hello, None)).
Proof. repeat split; compute_done. Qed.

Lemma FindEntry_index_hit_witness :
  ∃ fs' log err,
    FindEntry Lines.Unmarshal cache fs_indexed 1000 [xab; x01; xff]
      = Some (fs', log, (Some hello, None))
    ∧ SaveEntry cache fs_indexed 1000 [xab; x01; xff] hello = Some (fs', err)
    ∧ fs' !! ["cache"; "entries.json"] = fs_indexed !! ["cache"; "entries.json"]
    ∧ index Lines.Unmarshal ["cache"] fs' !! "ab01ff" = Some (mkEntry "hello" 400)
    ∧ (err = None →
       entry_file ["cache"] fs' [xab; x01; xff] = Some (File hello 1000 true)).
Proof.
  apply (FindEntry_index_hit Lines.Unmarshal cache fs_indexed 1000 [xab; x01; xff]
           (mkEntry "hello" 400)); [compute_done | by eexists].
Defined.

(* A hit in the index at time 1000: the content is returned and written to
   the entry file; the index file is the one written at 450 and still has
   400 as the last-used time of the entry. *)
Lemma FindEntry_index_hit_not_rewritten :
  index Lines.Unmarshal ["cache"] fs_indexed !! "ab01ff" = Some (mkEntry "hello" 400)
  ∧ FindEntry Lines.Unmarshal cache fs_indexed 1000 [xab; x01; xff]
      = Some (fs_indexed_found, [], (Some hello, None))
  ∧ fs_indexed_found !! ["cache"; "entries.json"]
      = fs_indexed !! ["cache"; "entries.json"]
  ∧ index Lines.Unmarshal ["cache"] fs_indexed_found !! "ab01ff"
      = Some (mkEntry "hello" 400).
Proof. repeat split; compute_done. Qed.

Lemma SaveEntry_FindEntry_witness :
  ∃ fs2 log,
    FindEntry Lines.Unmarshal cache fs_sharded_saved 1000 [xab; x01; xff]
      = Some (fs2, log, (Some (go_bytes "howdy"), None)).
Proof.
  apply (SaveEntry_FindEntry Lines.Unmarshal cache fs_sharded_only
           fs_sharded_saved 900 1000 [xab; x01; xff] (go_bytes "howdy")).
  - compute_done.
  - intros e He. exfalso. revert He. compute_done.
Defined.

(* The index has "hello" for ab01ff; "howdy" is saved for it with success,
   and the lookup that follows returns "hello". *)
Lemma SaveEntry_FindEntry_stale_index :
  SaveEntry cache fs_indexed 900 [xab; x01; xff] (go_bytes "howdy")
    = Some (fs_indexed_saved, None)
  ∧ FindEntry Lines.Unmarshal cache fs_indexed_saved 1000 [xab; x01; xff]
      = Some (fs_indexed_found, [], (Some hello, None))
  ∧ hello ≠ go_bytes "howdy".
Proof. repeat split; compute_done. Qed.

Lemma Prune_cleanup_failure_fatal_witness :
  Prune Lines.Unmarshal Lines.MarshalIndent ["cache"] fs_locked_shard 1000 1
    = (fs_locked_shard_walked, [ErrorDeletingPath EACCES], Some EACCES)
  ∧ ∀ path info st, (prune_visit path info None st).2 = None.
Proof.
  apply (Prune_cleanup_failure_fatal Lines.Unmarshal Lines.MarshalIndent
           ["cache"] fs_locked_shard fs_locked_shard fs_locked_shard_walked
           fs_locked_shard_walked fs_locked_shard_walked 1000 1
           {[ "ab01ff" := mkEntry "hello" 500 ]} [] []
           [] (mkInfo "ab" true 0) EACCES); compute_done.
Defined.

Lemma Prune_stray :
  Prune Lines.Unmarshal Lines.MarshalIndent ["cache"] fs_stray 1000 1
    = (fs_stray_pruned, log_stray_pruned, None).
Proof. compute_done. Qed.

Lemma Prune_leaves_root_files_witness :
  (∀ q n, fs_stray_pruned !! q = Some n → ["cache"] `prefix_of` q →
     q ≠ ["cache"] →
     is_child ["cache"] q
     ∧ ∃ d t rw, n = File d t rw
         ∧ (q = path_Join ["cache"] [ENTRIES_FILE]
            ∨ (fs_stray !! q = Some n
               ∧ (rw = false ∨ parent_writable fs_stray q ≠ Ok tt))))
  ∧ (∀ q, ["cache"] `prefix_of` q → q ≠ ["cache"] → ¬ is_child ["cache"] q →
          fs_stray_pruned !! q = None).
Proof.
  apply (Prune_leaves_root_files Lines.Unmarshal Lines.MarshalIndent ["cache"]
           fs_stray fs_stray_pruned 1000 1 log_stray_pruned);
    [compute_done | compute_done | done | apply Prune_stray].
Defined.

(* The pass comes to its end and README, which is not the index file, is
   still in the cache root; the entry file ab01ee, which could not be read
   either, is gone and the index has no entry for it. *)
Lemma Prune_leaves_unreadable_stray_file :
  Prune Lines.Unmarshal Lines.MarshalIndent ["cache"] fs_stray 1000 1
    = (fs_stray_pruned, log_stray_pruned, None)
  ∧ fs_stray_pruned !! ["cache"; "README"] = Some (File hello 100 false)
  ∧ ["cache"; "README"] ≠ path_Join ["cache"] [ENTRIES_FILE]
  ∧ fs_stray_pruned !! ["cache"; "ab"; "01"; "ee"] = None
  ∧ index Lines.Unmarshal ["cache"] fs_stray_pruned !! "ab01ee" = None.
Proof. repeat split; compute_done. Qed.



(* An entry file that cannot be read adds nothing to the index and takes
   nothing from it: the entry that the index had for its key, used at 900,
   is within the window of one week at 1000 and is written again. *)
Example Prune_keeps_index_entry :
  entry_file ["cache"] fs_unreadable_indexed [xab; x01; xee]
    = Some (File hello 100 false)
  ∧ Prune_index Lines.Unmarshal ["cache"] fs_unreadable_indexed 1000 1
      = Some {[ "ab01ee" := mkEntry "howdy" 900 ]}
  ∧ (Prune Lines.Unmarshal Lines.MarshalIndent ["cache"] fs_unreadable_indexed
       1000 1).2 = None.
Proof. split_and!; compute_done. Qed.

(* --------------------------------------------------------------------- *)
(* Concrete runs: entry paths and saving                                 *)
(* --------------------------------------------------------------------- *)

Lemma defineEntryPath_inj_witness :
  (["cache"; "ab"; "01"; "ff"] = ["cache"; "cd"; "01"; "ff"]
   ↔ [xab; x01; xff] = [xcd; x01; xff])
  ∧ (hex_EncodeToString [xab; x01; xff] = hex_EncodeToString [xcd; x01; xff]
     ↔ [xab; x01; xff] = [xcd; x01; xff]).
Proof.
  apply (defineEntryPath_inj ["cache"] [xab; x01; xff] [xcd; x01; xff]
           ["cache"; "ab"; "01"] ["cache"; "cd"; "01"]); reflexivity.
Defined.

Lemma digest_of_defineEntryPath_witness :
  digest_of ["cache"; "ab"; "01"; "ff"] = hex_EncodeToString [xab; x01; xff]
  ∧ filepath_Dir ["cache"; "ab"; "01"; "ff"] = ["cache"; "ab"; "01"].
Proof.
  apply (digest_of_defineEntryPath ["cache"] [xab; x01; xff]);
    [simpl; lia | reflexivity].
Defined.

Lemma entry_path_never_index_witness :
  filepath_Base ["cache"; "ab"; "01"; "ff"] ≠ ENTRIES_FILE
  ∧ filepath_Base ["cache"; "ab"; "01"; "ff"] ≠ ""
  ∧ ["cache"; "ab"; "01"; "ff"] ≠ path_Join ["cache"] [ENTRIES_FILE].
Proof.
  apply (entry_path_never_index ["cache"] [xab; x01; xff] ["cache"; "ab"; "01"]).
  reflexivity.
Defined.

Lemma SaveEntry_overwrites_witness :
  ∃ er ep,
    defineEntryPath ["cache"] [xab; x01; xff] = Some (er, ep)
    ∧ SaveEntry cache fs_sharded_saved 1000 [xab; x01; xff] hello
        = Some (<[ep := File hello 1000 true]> fs_sharded_saved, None).
Proof.
  apply (SaveEntry_overwrites cache fs_sharded_only fs_sharded_saved 900 1000
           [xab; x01; xff] (go_bytes "howdy") hello).
  compute_done.
Defined.

Lemma SaveEntry_frame_witness :
  ∃ er ep,
    defineEntryPath ["cache"] [xab; x01; xff] = Some (er, ep)
    ∧ (∀ q, q ≠ ep →
         fs_indexed_saved !! q = fs_indexed !! q
         ∨ (fs_indexed !! q = None ∧ fs_indexed_saved !! q = Some (Dir true true)
            ∧ q `prefix_of` er))
    ∧ fs_indexed_saved !! path_Join ["cache"] [ENTRIES_FILE]
        = fs_indexed !! path_Join ["cache"] [ENTRIES_FILE]
    ∧ (∀ digest', digest' ≠ [xab; x01; xff] → (3 ≤ length digest')%nat →
         entry_file ["cache"] fs_indexed_saved digest'
           = entry_file ["cache"] fs_indexed digest').
Proof.
  apply (SaveEntry_frame cache fs_indexed fs_indexed_saved 900 [xab; x01; xff]
           (go_bytes "howdy") None).
  compute_done.
Defined.

Lemma FindEntry_index_miss_witness :
  FindEntry Lines.Unmarshal cache fs_file_shard 1000 [xcd; x02; xee] =
    Some (fs_file_shard,
          (readJson Lines.Unmarshal fs_file_shard
             (path_Join ["cache"] [ENTRIES_FILE])).2,
          match entry_file ["cache"] fs_file_shard [xcd; x02; xee] with
          | None =>
              (None,
               if entry_barred ["cache"] fs_file_shard [xcd; x02; xee]
               then Some ENOTDIR else None)
          | Some (File data _ true) => (Some data, None)
          | Some (File _ _ false) => (None, Some EACCES)
          | Some (Dir true _) => (Some [], Some EISDIR)
          | Some (Dir false _) => (None, Some EACCES)
          end)
  ∧ entry_file ["cache"] fs_file_shard [xcd; x02; xee] = None
  ∧ entry_barred ["cache"] fs_file_shard [xcd; x02; xee] = true.
Proof.
  split; [|split; [compute_done | vm_compute; reflexivity]].
  apply (FindEntry_index_miss Lines.Unmarshal cache fs_file_shard 1000
           [xcd; x02; xee]); [compute_done | simpl; lia].
Defined.

(* The shard directory on the way to the path is a regular file: one
   warning and no entry. *)
Lemma readJson_without_file_witness :
  (readJson Lines.Unmarshal fs_file_shard ["cache"; "cd"; "entries.json"]).1 = ∅
  ∧ ((readJson Lines.Unmarshal fs_file_shard ["cache"; "cd"; "entries.json"]).2 = []
     ↔ fs_file_shard !! ["cache"; "cd"; "entries.json"] = None
       ∧ file_on_the_way fs_file_shard ["cache"; "cd"; "entries.json"] = false)
  ∧ (is_Some (fs_file_shard !! ["cache"; "cd"; "entries.json"])
     ∨ file_on_the_way fs_file_shard ["cache"; "cd"; "entries.json"] = true →
     ∃ err, (readJson Lines.Unmarshal fs_file_shard
               ["cache"; "cd"; "entries.json"]).2
            = [ErrorReadingCacheJSON err]).
Proof.
  apply (readJson_without_file Lines.Unmarshal fs_file_shard
           ["cache"; "cd"; "entries.json"]).
  intros data t.
  assert (H : fs_file_shard !! ["cache"; "cd"; "entries.json"] = None)
    by compute_done.
  rewrite H. discriminate.
Defined.

(* --------------------------------------------------------------------- *)
(* Concrete runs: pruning                                                *)
(* --------------------------------------------------------------------- *)

Lemma Prune_frame_witness :
  fs_stray_pruned !! ["home"] = fs_stray !! ["home"]
  ∨ (fs_stray !! ["home"] = None
     ∧ fs_stray_pruned !! ["home"] = Some (Dir true true)
     ∧ ["home"] `prefix_of` ["cache"]).
Proof.
  apply (Prune_frame Lines.Unmarshal Lines.MarshalIndent ["cache"] fs_stray
           fs_stray_pruned 1000 1 log_stray_pruned None ["home"]);
    [apply Prune_stray | compute_done].
Defined.

Lemma Prune_first_run_witness :
  Prune Lines.Unmarshal Lines.MarshalIndent ["cache"] fs_no_cache 1000 1
    = (<[path_Join ["cache"] [ENTRIES_FILE] := File [] 1000 true]>
         (<[ ["cache"] := Dir true true ]> fs_no_cache),
       [FoundCacheEntries 0 ["cache"]; NoOutdatedEntries], None)
  ∧ (<[ ["cache"] := Dir true true ]> fs_no_cache) !! ["cache"]
      = Some (Dir true true).
Proof.
  apply (Prune_first_run Lines.Unmarshal Lines.MarshalIndent ["cache"]
           fs_no_cache (<[ ["cache"] := Dir true true ]> fs_no_cache) 1000 1 []);
    compute_done.
Defined.


Lemma Prune_report_witness :
  ∃ entries log0 last jsonData,
    log_stray_pruned = log0 ++ [FoundCacheEntries (size entries) ["cache"]; last]
    ∧ Lines.MarshalIndent (prune_evict 1000 (retention 1) entries) = Ok jsonData
    ∧ fs_stray_pruned !! path_Join ["cache"] [ENTRIES_FILE]
        = Some (File jsonData 1000 true)
    ∧ (size (prune_evict 1000 (retention 1) entries) ≤ size entries)%nat
    ∧ (last = NoOutdatedEntries
       ↔ prune_evict 1000 (retention 1) entries = entries)
    ∧ (last = NoOutdatedEntries
       ∨ last = RemovedOutdated
                  (Z.of_nat (size entries)
                   - Z.of_nat (size (prune_evict 1000 (retention 1) entries)))).
Proof.
  apply (Prune_report Lines.Unmarshal Lines.MarshalIndent ["cache"] fs_stray
           fs_stray_pruned 1000 1 log_stray_pruned).
  apply Prune_stray.
Defined.

Lemma prune_evict_longer_window_witness :
  prune_evict 1000 (retention 0) {["ab01ff" := mkEntry "x" 400]}
    ⊆ prune_evict 1000 (retention 1) {["ab01ff" := mkEntry "x" 400]}
  ∧ prune_evict 1000 (retention 1) {["ab01ff" := mkEntry "x" 400]}
    ⊆ {["ab01ff" := mkEntry "x" 400]}.
Proof.
  apply (prune_evict_longer_window 1000 0 1 {["ab01ff" := mkEntry "x" 400]}); lia.
Defined.

Lemma Prune_sharded_only :
  Prune Lines.Unmarshal Lines.MarshalIndent ["cache"] fs_sharded_only 1000 1
    = (fs_sharded_pruned, [FoundCacheEntries 1 ["cache"]; NoOutdatedEntries], None).
Proof. compute_done. Qed.

Lemma sharded_tree_sharded_only : sharded_tree ["cache"] fs_sharded_only.
Proof.
  intros p d t Hp Hpre Hname.
  assert (Hall : map_Forall (λ p n,
            readable n = true → ["cache"] `prefix_of` p →
            filepath_Base p ≠ ENTRIES_FILE →
            p = ["cache"; "ab"; "01"; "ff"]) fs_sharded_only) by compute_done.
  rewrite (Hall p _ Hp eq_refl Hpre Hname).
  exists [xab; x01; xff], ["cache"; "ab"; "01"]. split; [simpl; lia | reflexivity].
Qed.

Lemma Prune_then_FindEntry_witness :
  entry_file ["cache"] fs_sharded_pruned [xab; x01; xff] = None
  ∧ index Lines.Unmarshal ["cache"] fs_sharded_pruned
      !! hex_EncodeToString [xab; x01; xff]
      = Some (mkEntry (go_string hello) 500)
  ∧ ∃ fs3 log',
      FindEntry Lines.Unmarshal cache fs_sharded_pruned 2000 [xab; x01; xff]
        = Some (fs3, log', (Some hello, None)).
Proof.
  apply (Prune_then_FindEntry Lines.Unmarshal Lines.MarshalIndent cache
           fs_sharded_only fs_sharded_pruned 1000 2000 1
           [FoundCacheEntries 1 ["cache"]; NoOutdatedEntries]
           [xab; x01; xff] hello 500);
    [compute_done | compute_done | done | apply sharded_tree_sharded_only
     | simpl; lia | compute_done | apply Prune_sharded_only | compute_done
     | compute_done].
Defined.
